(** * SciComp: the IVP driver, the shooting solver and the PDE time-steppers

    A shallow embedding of [SciComp/ivp.py] and [SciComp/_pde_solvers.py].

    Numbers.  Python's [int] and [float] are both read as exact rationals
    ([Q]); rounding of binary floating point is outside the model.  Statements
    about numeric values use [==] ([Qeq]).

    Arrays.  A one-dimensional numpy array is a [list Q]; the state-by-time
    buffer [u] of the PDE steppers is the list of its time columns, so that
    [u[:, j]] is the [j]-th element and [u[i, j]] the [i]-th entry of it.

    Effects.  A Python call either returns or raises; a loop may also fail to
    stop.  [result] has the three outcomes, the last one produced only when
    the fuel of the [while] loop of [solve_ode] runs out.  The warning stream
    is a log threaded next to the result. *)

From Stdlib Require Import String ZArith QArith Qabs Qround Lqa Lia Bool List.
Import ListNotations.
Local Open Scope Q_scope.

(** ** Exceptions and outcomes *)

Inductive exn_class : Type :=
| ValueError
| TypeError
| InputError
| FunctionError
| IndexError
| NameError
| AttributeError
| LinAlgError.

Definition vec : Type := list Q.

(** The values substituted into a message by [str.format]. *)
Inductive fmt_arg : Type :=
| FNum (q : Q)
| FVec (v : vec)
| FStr (s : string).

Inductive exn : Type :=
| Exn (c : exn_class) (msg : string) (args : list fmt_arg).

Inductive result (A : Type) : Type :=
| Ok (a : A)
| Raise (e : exn)
| OutOfFuel.

Arguments Ok {A} a.
Arguments Raise {A} e.
Arguments OutOfFuel {A}.

Definition bind {A B : Type} (m : result A) (k : A -> result B) : result B :=
  match m with
  | Ok a => k a
  | Raise e => Raise e
  | OutOfFuel => OutOfFuel
  end.

Notation "x <- m ;; k" := (bind m (fun x => k))
  (at level 61, m at next level, right associativity).
Notation "' pat <- m ;; k" := (bind m (fun x => match x with pat => k end))
  (at level 61, pat pattern, m at next level, right associativity).

(** [try: m except: raise e]: a bare [except] (or [except Exception]) replaces
    whatever was raised; a loop that does not stop is not caught. *)
Definition try_except {A : Type} (m : result A) (e : exn) : result A :=
  match m with
  | Ok a => Ok a
  | Raise _ => Raise e
  | OutOfFuel => OutOfFuel
  end.

(** The warning stream: [warnings.warn(msg.format(args))]. *)
Definition warning : Type := (string * list fmt_arg)%type.

Definition W (A : Type) : Type := (result A * list warning)%type.

Definition wret {A : Type} (a : A) : W A := (Ok a, []).
Definition wraise {A : Type} (e : exn) : W A := (Raise e, []).
Definition wlift {A : Type} (m : result A) : W A := (m, []).
Definition warn (w : warning) : W unit := (Ok tt, [w]).

Definition wbind {A B : Type} (m : W A) (k : A -> W B) : W B :=
  match m with
  | (Ok a, log) => let '(r, log') := k a in (r, log ++ log')
  | (Raise e, log) => (Raise e, log)
  | (OutOfFuel, log) => (OutOfFuel, log)
  end.

Notation "x <~ m ;; k" := (wbind m (fun x => k))
  (at level 61, m at next level, right associativity).

Definition value {A : Type} (m : W A) : result A := fst m.
Definition warnings {A : Type} (m : W A) : list warning := snd m.

(** ** Numbers and one-dimensional arrays *)

Definition Qleb (x y : Q) : bool := Qle_bool x y.
Definition Qltb (x y : Q) : bool := negb (Qle_bool y x).

(** [c * v] for a scalar [c]. *)
Definition vscale (c : Q) (v : vec) : vec := map (Qmult c) v.

Fixpoint zip_with {A B C : Type} (f : A -> B -> C) (a : list A) (b : list B) : list C :=
  match a, b with
  | x :: a', y :: b' => f x y :: zip_with f a' b'
  | _, _ => []
  end.

Definition shape_error : exn :=
  Exn ValueError "operands could not be broadcast together" [].

(** [a (op) b] along one axis, with numpy's broadcasting: equal lengths combine
    entry by entry, a length-one operand is repeated, any other pair of lengths
    raises. *)
Definition np_binop {A B : Type} (f : A -> A -> B) (a b : list A) : result (list B) :=
  if (length a =? length b)%nat then Ok (zip_with f a b)
  else match a, b with
       | [x], _ => Ok (map (f x) b)
       | _, [y] => Ok (map (fun x => f x y) a)
       | _, _ => Raise shape_error
       end.

Definition np_add : vec -> vec -> result vec := np_binop Qplus.
Definition np_sub : vec -> vec -> result vec := np_binop Qminus.

(** [v[-1]] *)
Definition last_item {A : Type} (l : list A) : result A :=
  match rev l with
  | x :: _ => Ok x
  | [] => Raise (Exn IndexError "index -1 is out of bounds" [])
  end.

(** [v[i]] for [0 <= i]. *)
Definition item {A : Type} (l : list A) (i : nat) : result A :=
  match nth_error l i with
  | Some x => Ok x
  | None => Raise (Exn IndexError "index is out of bounds" [])
  end.

(** [l[i] = v] for [0 <= i]. *)
Fixpoint set_item {A : Type} (l : list A) (i : nat) (v : A) : result (list A) :=
  match l, i with
  | [], _ => Raise (Exn IndexError "index is out of bounds" [])
  | _ :: l', O => Ok (v :: l')
  | x :: l', S i' => l'' <- set_item l' i' v ;; Ok (x :: l'')
  end.

(** [l[-1] = v] *)
Definition set_last_item {A : Type} (l : list A) (v : A) : result (list A) :=
  match l with
  | [] => Raise (Exn IndexError "index -1 is out of bounds" [])
  | _ => Ok (removelast l ++ [v])
  end.

(** [for i in l: s = body(i, s)] *)
Fixpoint for_each {S : Type} (l : list nat) (body : nat -> S -> result S) (s : S) : result S :=
  match l with
  | [] => Ok s
  | i :: l' => s' <- body i s ;; for_each l' body s'
  end.

(** [np.zeros(n)] *)
Definition np_zeros (n : nat) : vec := repeat 0 n.

(** [np.isclose(a, b, rtol, atol)]: [|a - b| <= atol + rtol * |b|]. *)
Definition isclose (rtol atol : Q) (a b : Q) : bool :=
  Qleb (Qabs (a - b)) (atol + rtol * Qabs b).

(** [np.allclose(a, b, atol=atol)], with numpy's default [rtol = 1e-05]. *)
Definition np_allclose (a b : vec) (atol : Q) : result bool :=
  flags <- np_binop (isclose (1 # 100000) atol) a b ;;
  Ok (forallb (fun c : bool => c) flags).

(** [d.get(k)] on a dictionary with string keys, kept as an association list. *)
Fixpoint dict_get {V : Type} (d : list (string * V)) (k : string) : option V :=
  match d with
  | [] => None
  | (k', v) :: d' => if String.eqb k k' then Some v else dict_get d' k
  end.

(** ** Step functions

    [SciComp/_ode_solvers.py] is not among the sources.  The drivers below
    take the three imported step functions as parameters; the definitions of
    this module are used where a statement needs to run them. *)

Definition vector_field : Type := Q -> vec -> result vec.
Definition step_function : Type :=
  vector_field -> Q -> vec -> Q -> result (Q * vec).

Module OdeSolvers.

(** Modelled from the spec: [euler_step] of the missing
    [SciComp/_ode_solvers.py]: [y_next = y + h * f(t, y)], returned with
    [t + h]. *)
Definition euler_step : step_function := fun f t y h =>
  k1 <- f t y ;;
  y_next <- np_add y (vscale h k1) ;;
  Ok (t + h, y_next).

(** Modelled from the spec: [heun_step] of the missing
    [SciComp/_ode_solvers.py]: predictor [y_p = y + h*f(t,y)], corrector
    [y_next = y + h/2*(f(t,y) + f(t+h, y_p))]. *)
Definition heun_step : step_function := fun f t y h =>
  k1 <- f t y ;;
  y_p <- np_add y (vscale h k1) ;;
  k2 <- f (t + h) y_p ;;
  s <- np_add k1 k2 ;;
  y_next <- np_add y (vscale (h / 2) s) ;;
  Ok (t + h, y_next).

(** Modelled from the spec: [rk4_step] of the missing
    [SciComp/_ode_solvers.py]: the classic four stages at [t], [t + h/2]
    (twice) and [t + h], combined with the weights [(k1+2k2+2k3+k4)/6]. *)
Definition rk4_step : step_function := fun f t y h =>
  k1 <- f t y ;;
  y1 <- np_add y (vscale (h / 2) k1) ;;
  k2 <- f (t + h / 2) y1 ;;
  y2 <- np_add y (vscale (h / 2) k2) ;;
  k3 <- f (t + h / 2) y2 ;;
  y3 <- np_add y (vscale h k3) ;;
  k4 <- f (t + h) y3 ;;
  s12 <- np_add k1 (vscale 2 k2) ;;
  s123 <- np_add s12 (vscale 2 k3) ;;
  s <- np_add s123 k4 ;;
  y_next <- np_add y (vscale (h / 6) s) ;;
  Ok (t + h, y_next).

End OdeSolvers.

(** The contract of a step function on the right-hand side [f]: called with
    step size [h] it returns, and the time it returns is [t + h]. *)
Definition step_contract (f : vector_field) (step : step_function) : Prop :=
  forall t y h, exists y', step f t y h = Ok (t + h, y').

(** A right-hand side that returns an array of the shape of its argument. *)
Definition shape_preserving (f : vector_field) : Prop :=
  forall t y, exists k, f t y = Ok k /\ length k = length y.

(** ** The IVP driver and the shooting solver ([SciComp/ivp.py]) *)

Module IVP.

(** The right-hand side as the caller passes it: [fun(t, y, *args)]. *)
Definition ode_function : Type := Q -> vec -> list Q -> result vec.

(** The two kinds of object the variable [method] of [solve_ode] holds: the
    name it is called with, and, after the lookup in [METHODS], a function
    object. *)
Inductive pyvalue : Type :=
| PyStr (s : string)
| PyFunction (name : string) (call : step_function).

(** [f.__name__] *)
Definition fn_name (f : pyvalue) : result pyvalue :=
  match f with
  | PyFunction name _ => Ok (PyStr name)
  | PyStr _ => Raise (Exn AttributeError "'str' object has no attribute '__name__'" [])
  end.

(** [a == b]: strings compare by content, function objects by identity (each
    [def] has its own name); a function object never equals a string. *)
Definition py_eq (a b : pyvalue) : bool :=
  match a, b with
  | PyStr s1, PyStr s2 => String.eqb s1 s2
  | PyFunction n1 _, PyFunction n2 _ => String.eqb n1 n2
  | _, _ => false
  end.

(** [m(f, t, y, h)] *)
Definition call_method (m : pyvalue) : step_function :=
  match m with
  | PyFunction _ call => call
  | PyStr _ => fun _ _ _ _ => Raise (Exn TypeError "'str' object is not callable" [])
  end.

(** [lambda t, x, fun=fun: fun(t, x, *args)], or [fun] itself when [args] is
    [None]. *)
Definition bind_args {R : Type} (fun_ : Q -> vec -> list Q -> result R)
    (args : option (list Q)) : Q -> vec -> result R :=
  match args with
  | Some a => fun t x => fun_ t x a
  | None => fun t x => fun_ t x []
  end.

(** Defaults of the keyword parameters of [solve_ode]. *)
Definition default_method : string := "RK4".
Definition default_deltat_max : Q := 1 # 100.

(** No name [h] is bound in [solve_ode]: evaluating it raises. *)
Definition name_h : result fmt_arg :=
  Raise (Exn NameError "name 'h' is not defined" []).

Section Driver.

(** The step functions imported from [SciComp._ode_solvers]. *)
Variables euler_step rk4_step heun_step : step_function.

Definition METHODS : list (string * pyvalue) :=
  [ ("Euler"%string, PyFunction "euler_step" euler_step);
    ("RK4"%string, PyFunction "rk4_step" rk4_step);
    ("Heun"%string, PyFunction "heun_step" heun_step) ].

(** [while (tf is None or t < tf) and (n_max is None or step < n_max)]: *)
Definition loop_test (tf : option Q) (n_max : option Z) (t : Q) (step : Z) : bool :=
  match tf with None => true | Some tf' => Qltb t tf' end
  && match n_max with None => true | Some n => (step <? n)%Z end.

(** [if tf is not None and t + deltat_max > tf: deltat_max = tf - t] *)
Definition clamp (tf : option Q) (t deltat_max : Q) : Q :=
  match tf with
  | Some tf' => if Qltb tf' (t + deltat_max) then tf' - t else deltat_max
  | None => deltat_max
  end.

(** The stepping loop of [solve_ode] (lines 137-147), one unit of fuel per
    evaluation of the loop test. *)
Fixpoint solve_ode_loop (fuel : nat) (method : pyvalue) (fun_ : vector_field)
    (tf : option Q) (n_max : option Z)
    (t : Q) (y : vec) (deltat_max : Q) (step : Z)
    (t_array : list Q) (y_array : list vec) : result (list Q * list vec) :=
  match fuel with
  | O => OutOfFuel
  | S fuel' =>
      if loop_test tf n_max t step then
        '(t, y) <- call_method method fun_ t y deltat_max ;;
        let t_array := t_array ++ [t] in
        let y_array := y_array ++ [y] in
        let step := (step + 1)%Z in
        let deltat_max := clamp tf t deltat_max in
        solve_ode_loop fuel' method fun_ tf n_max t y deltat_max step t_array y_array
      else Ok (t_array, y_array)
  end.

(** The tests on [tf] (lines 104-116).  [tf] is a number by its type, so the
    [except TypeError] clause has nothing to catch.  [method] is the function
    object found in [METHODS]. *)
Definition check_tf (tf : option Q) (t0 : Q) (method : pyvalue) : W unit :=
  match tf with
  | None => wret tt
  | Some tf' =>
      if Qleb tf' t0 then
        wraise (Exn ValueError "tf must be greater than t0." [])
      else if Qltb tf' (1 # 1000) then
        name <~ wlift (fn_name (PyFunction "rk4_step" rk4_step)) ;;
        if py_eq method name then
          h <~ wlift name_h ;;
          warn ("A step size ({}) of less than 0.001 is not recommended for the RK4 method. Possible rounding errors may occur."%string, [h])
        else wret tt
      else wret tt
  end.

(** [solve_ode(fun, t0, y0, tf, n_max, method, deltat_max, args)].

    The types of the parameters settle the tests on types: [args] is a
    sequence, [t0] and [deltat_max] are numbers, [y0] and the value of [fun]
    are one-dimensional arrays, [n_max] is an [int]. *)
Definition solve_ode (fuel : nat) (fun_ : ode_function) (t0 : Q) (y0 : vec)
    (tf : option Q) (n_max : option Z) (method : string) (deltat_max : Q)
    (args : option (list Q)) : W (list Q * list vec) :=
  let fun_ : vector_field := bind_args fun_ args in
  array <~ wlift (try_except (fun_ t0 y0)
                    (Exn FunctionError "ODE function must be of the form f(t, y)." [])) ;;
  if negb (length y0 =? length array)%nat then
    wraise (Exn FunctionError
      "ODE function must return a numpy array of the same shape as y0. y0.shape: {}. f(t0, y0).shape: {}"
      [FNum (inject_Z (Z.of_nat (length y0))); FNum (inject_Z (Z.of_nat (length array)))])
  else
  match dict_get METHODS method with
  | None =>
      wraise (Exn ValueError "Invalid method: {}. Method must be one of {}."
                [FStr method; FStr "Euler"; FStr "RK4"; FStr "Heun"])
  | Some method =>
      if match tf, n_max with None, None => true | _, _ => false end then
        wraise (Exn ValueError "Either tf or n_max must be given." [])
      else
      _ <~ check_tf tf t0 method ;;
      if match n_max with Some n => (n <=? 0)%Z | None => false end then
        wraise (Exn ValueError "n_max must be greater than 0." [])
      else if Qleb deltat_max 0 then
        wraise (Exn ValueError "deltat_max must be greater than 0." [])
      else
        wlift (solve_ode_loop fuel method fun_ tf n_max t0 y0 deltat_max 0%Z [t0] [y0])
  end.

End Driver.

(** ** The shooting solver *)

(** [ode_solver(ode, t0, y0, tf=T, args=function_args)] and
    [root_solver(fun, x0)]: the two capabilities [shooting] is given. *)
Definition ode_solver_type : Type :=
  ode_function -> Q -> vec -> option Q -> option (list Q) -> result (list Q * list vec).
Definition root_solver_type : Type :=
  (vec -> result vec) -> vec -> result vec.

(** [phase_function(t, y, *args)] *)
Definition phase_function_type : Type := Q -> vec -> list Q -> result Q.

Section Shooting.

Variables euler_step rk4_step heun_step : step_function.

(** The default of [ode_solver]: [solve_ode] itself, called with the keywords
    [tf] and [args] only. *)
Definition solve_ode_as_solver (fuel : nat) : ode_solver_type :=
  fun ode t0 y0 tf args =>
    value (solve_ode euler_step rk4_step heun_step fuel ode t0 y0 tf None
             default_method default_deltat_max args).

Section Residual.

Variable ode : ode_function.
Variable phase_function : Q -> vec -> result Q.
Variable ode_solver : ode_solver_type.
Variable function_args : option (list Q).

(** The body of the loop of [shooting_root] (line 247):
    [conditions[i] = y[-1,i] - Y0[i]]. *)
Definition periodicity (y : list vec) (Y0 : vec) (i : nat) (conditions : vec) : result vec :=
  y_last <- last_item y ;;
  y_T_i <- item y_last i ;;
  Y0_i <- item Y0 i ;;
  set_item conditions i (y_T_i - Y0_i).

(** The inner function [shooting_root(initial_guess)] (lines 235-253). *)
Definition shooting_root (initial_guess : vec) : result vec :=
  T <- last_item initial_guess ;;
  let Y0 := removelast initial_guess in
  '(t, y) <- ode_solver ode 0 Y0 (Some T) function_args ;;
  let num_vars := length initial_guess in
  let conditions := np_zeros num_vars in
  conditions <- for_each (seq 0 (num_vars - 1)) (periodicity y Y0) conditions ;;
  phase_value <- phase_function 0 Y0 ;;
  set_last_item conditions phase_value.

End Residual.

Definition U0_message : string :=
  "The initial guess, U0, is not of the correct form. The initial guess should be a list of the form [y0, y1, ..., yn, T], where y0, y1, ..., yn are the initial conditions for the ODE and T is the time period. Values given: U0 = {}".
Definition phase_message : string :=
  "The phase function is not of the correct form. The phase function should take the same inputs as the ODE. Input provided for U0 = {}".
Definition boundary_message : string :=
  "The solution does not satisfy the boundary conditions. The final conditions are: {}. The final value of X0 and T is: {}, {}. the initial guess or increasing the absolute tolerance.".
Definition period_message : string :=
  "The time period is not positive. Please try a different initial guess.".

(** [shooting(U0, ode, phase_function, ode_solver, root_solver, atol,
    function_args)], for [U0] a numpy array.  [fuel] bounds the loop of the
    one-step probe. *)
Definition shooting (fuel : nat) (U0 : vec) (ode : ode_function)
    (phase_function : phase_function_type)
    (ode_solver : ode_solver_type) (root_solver : root_solver_type)
    (atol : Q) (function_args : option (list Q)) : result (vec * Q) :=
  _ <- try_except
         (value (solve_ode euler_step rk4_step heun_step fuel ode 0 (removelast U0)
                   None (Some 1%Z) default_method default_deltat_max function_args))
         (Exn InputError U0_message [FVec U0]) ;;
  let phase_function : Q -> vec -> result Q := bind_args phase_function function_args in
  _ <- try_except (phase_function 0 (removelast U0))
         (Exn FunctionError phase_message [FVec U0]) ;;
  let shooting_root := shooting_root ode phase_function ode_solver function_args in
  sol <- root_solver shooting_root U0 ;;
  let X0 := removelast sol in
  T <- last_item sol ;;
  final_conditions <- shooting_root sol ;;
  close <- np_allclose final_conditions (np_zeros (length sol)) atol ;;
  if negb close then
    Raise (Exn ValueError boundary_message [FVec final_conditions; FVec X0; FNum T])
  else if Qleb T 0 then
    Raise (Exn ValueError period_message [])
  else Ok (X0, T).

End Shooting.

End IVP.

(** ** The PDE time-steppers ([SciComp/_pde_solvers.py]) *)

Module PDE.

(** A two-dimensional array as the list of its rows. *)
Definition matrix : Type := list vec.

(** [np.eye(n)] and [sp.eye(n)] *)
Definition eye (n : nat) : matrix :=
  map (fun i => map (fun j => if (i =? j)%nat then 1 else 0) (seq 0 n)) (seq 0 n).

(** [c * M] *)
Definition mat_scale (c : Q) (M : matrix) : matrix := map (vscale c) M.

Fixpoint sequence {A : Type} (l : list (result A)) : result (list A) :=
  match l with
  | [] => Ok []
  | m :: l' => x <- m ;; xs <- sequence l' ;; Ok (x :: xs)
  end.

(** [M1 - M2] for rectangular matrices, each of the two axes broadcast as in
    [np_binop]. *)
Definition mat_sub (M1 M2 : matrix) : result matrix :=
  rows <- np_binop np_sub M1 M2 ;;
  sequence rows.

Definition dot (r u : vec) : Q := fold_right Qplus 0 (zip_with Qmult r u).

(** [M @ u]: every row of [M] must be as long as [u]. *)
Definition matvec (M : matrix) (u : vec) : result vec :=
  if forallb (fun r => (length r =? length u)%nat) M then Ok (map (fun r => dot r u) M)
  else Raise (Exn ValueError "matmul: Input operand 1 has a mismatch in its core dimension 0" []).

(** Arrays equal entry by entry as numbers. *)
Definition veq (a b : vec) : Prop := Forall2 Qeq a b.

(** The contract of a linear solve [solve(M, r) -> x]: what it returns has the
    shape of [r] and satisfies [M @ x = r]. *)
Definition exact_solve (solve : matrix -> vec -> result vec) : Prop :=
  forall M r x,
    solve M r = Ok x ->
    length x = length r /\ exists image, matvec M x = Ok image /\ veq image r.

(** A matrix whose linear systems have at most one solution. *)
Definition nonsingular (M : matrix) : Prop :=
  forall x x' image image',
    matvec M x = Ok image -> matvec M x' = Ok image' -> veq image image' -> veq x x'.

(** The state-by-time buffer, stored as the list of its time columns. *)
Definition buffer : Type := list vec.


(** [np.zeros((nx, nt))] *)
Definition zeros (nx nt : nat) : buffer := repeat (np_zeros nx) nt.

(** A buffer of [nt] columns of [nx] entries each. *)
Definition shaped (nx nt : nat) (u : buffer) : Prop :=
  length u = nt /\ Forall (fun col => length col = nx) u.

(** The value [v] as it is stored into a slice of length [n]. *)
Definition broadcast_to (n : nat) (v : vec) : result vec :=
  if (length v =? n)%nat then Ok v
  else match v with
       | [x] => Ok (repeat x n)
       | _ => Raise (Exn ValueError "could not broadcast input array" [])
       end.

(** [u[:, j] = v] on a buffer of [nx] rows. *)
Definition set_column (nx : nat) (u : buffer) (j : nat) (v : vec) : result buffer :=
  col <- broadcast_to nx v ;;
  set_item u j col.

(** [u[0, :] = a] *)
Definition set_first_row (u : buffer) (a : Q) : result buffer :=
  sequence (map (fun col => set_item col 0 a) u).

(** [u[-1, :] = a] *)
Definition set_last_row (u : buffer) (a : Q) : result buffer :=
  sequence (map (fun col => set_last_item col a) u).

(** [u[i, j]] *)
Definition get (u : buffer) (i j : nat) : result Q :=
  col <- item u j ;; item col i.

(** [u[i, j] = v] *)
Definition set (u : buffer) (i j : nat) (v : Q) : result buffer :=
  col <- item u j ;;
  col' <- set_item col i v ;;
  set_item u j col'.

(** The descriptor built in [SciComp/bvp.py], which is not among the sources:
    its fields as the steppers read them, with the value of
    [construct_matrix()] as a field. *)
Record BVP : Type := {
  alpha : Q;
  beta : Q;
  C : Q;
  D : Q;
  N : Z;
  shape : nat;
  sparse : bool;
  f_fun : vec -> Q -> vec;
  q_fun : option (vec -> Q -> vec -> vec);
  construct_matrix : matrix * vec * vec
}.

(** [M1 + M2] for rectangular matrices, broadcast as [mat_sub]. *)
Definition mat_add (M1 M2 : matrix) : result matrix :=
  rows <- np_binop np_add M1 M2 ;;
  sequence rows.

(** [M / c] *)
Definition mat_div (M : matrix) (c : Q) : matrix := map (map (fun x => x / c)) M.

Section Steppers.

(** The step functions imported from [SciComp._ode_solvers]. *)
Variables euler_step rk4_step heun_step : step_function.

(** The two linear solves, [np.linalg.solve] and [sp.linalg.spsolve]. *)
Variables np_linalg_solve sp_linalg_spsolve : matrix -> vec -> result vec.

(** [explicit_euler(bvp, t)] (lines 64-82).  The function ends in a bare
    [return]: its value is [None]. *)
Definition explicit_euler (bvp : BVP) (t : vec) : result (option buffer) :=
  let '(A, b, x_array) := construct_matrix bvp in
  let u := zeros (length x_array) (length t) in
  t_0 <- item t 0 ;;
  u <- set_column (length x_array) u 0 (f_fun bvp x_array t_0) ;;
  u <- set_first_row u (alpha bvp) ;;
  u <- set_last_row u (beta bvp) ;;
  u <- for_each (seq 0 (length t - 1)) (fun ti u =>
         for_each (seq 1 (length x_array - 1 - 1)) (fun xi u =>
           if (xi =? 0)%nat then
             set u xi (ti + 1) (alpha bvp)
           else if (0 <? xi)%nat && (Z.of_nat xi <? N bvp)%Z then
             u_c <- get u xi ti ;;
             u_l <- get u (xi - 1) ti ;;
             u_r <- get u (xi + 1) ti ;;
             set u xi (ti + 1) (u_c + C bvp * (u_l - 2 * u_c + u_r))
           else
             u_c <- get u xi ti ;;
             u_l <- get u (xi - 1) ti ;;
             set u xi (ti + 1) (u_c + C bvp * (beta bvp - 2 * u_c + u_l)))
         u) u ;;
  Ok None.

Definition METHODS : list (string * step_function) :=
  [ ("Euler"%string, euler_step);
    ("RK4"%string, rk4_step);
    ("Heun"%string, heun_step) ].

(** The right-hand side [PDE] defined inside [explicit_method] and called by
    the step function as [PDE(t, u)].  With a reaction term the function is
    defined with the five parameters [(t, u, D, A, b)], and the call with two
    raises. *)
Definition PDE (bvp : BVP) (A : matrix) (b : vec) : vector_field :=
  match q_fun bvp with
  | None => fun t u =>
      Au <- matvec A u ;;
      s <- np_add Au b ;;
      Ok (vscale (C bvp) s)
  | Some _ => fun t u =>
      Raise (Exn TypeError "PDE() missing 3 required positional arguments: 'D', 'A', and 'b'" [])
  end.

(** The time loop of the method of lines, for the step function [step]:
    [t_, u[:, n+1] = step(PDE, t_, u[:, n], 1)]. *)
Definition lines_loop (step : step_function) (f : vector_field) (nx : nat)
    (t : vec) (t_0 : Q) (u : buffer) : result (Q * buffer) :=
  for_each (seq 0 (length t - 1)) (fun n '(t_, u) =>
    u_n <- item u n ;;
    '(t_, u_next) <- step f t_ u_n 1 ;;
    u <- set_column nx u (n + 1) u_next ;;
    Ok (t_, u)) (t_0, u).

(** [explicit_method(bvp, t, method)] (lines 106-135).  The function found in
    [METHODS] is bound to [method]; the loop calls [euler_step]. *)
Definition explicit_method (bvp : BVP) (t : vec) (method : string) : result buffer :=
  match dict_get METHODS method with
  | None =>
      Raise (Exn ValueError "Invalid method: {}. Method must be one of {}."
               [FStr method; FStr "Euler"; FStr "RK4"; FStr "Heun"])
  | Some method =>
      let '(A, b, x_array) := construct_matrix bvp in
      let u := zeros (length x_array) (length t) in
      t_0 <- item t 0 ;;
      u <- set_column (length x_array) u 0 (f_fun bvp x_array t_0) ;;
      u <- set_first_row u (alpha bvp) ;;
      u <- set_last_row u (beta bvp) ;;
      '(_, u) <- lines_loop euler_step (PDE bvp A b) (length x_array) t t_0 u ;;
      Ok u
  end.

(** What the spec describes for the explicit stepper, for comparison with
    [explicit_method]: the same set-up, the loop advancing with the step
    function selected by [method]. *)
Definition explicit_method_selected (bvp : BVP) (t : vec) (method : string) : result buffer :=
  match dict_get METHODS method with
  | None =>
      Raise (Exn ValueError "Invalid method: {}. Method must be one of {}."
               [FStr method; FStr "Euler"; FStr "RK4"; FStr "Heun"])
  | Some method =>
      let '(A, b, x_array) := construct_matrix bvp in
      let u := zeros (length x_array) (length t) in
      t_0 <- item t 0 ;;
      u <- set_column (length x_array) u 0 (f_fun bvp x_array t_0) ;;
      u <- set_first_row u (alpha bvp) ;;
      u <- set_last_row u (beta bvp) ;;
      '(_, u) <- lines_loop method (PDE bvp A b) (length x_array) t t_0 u ;;
      Ok u
  end.

(** [implicit_euler(bvp, t)] (lines 154-176). *)
Definition implicit_euler (bvp : BVP) (t : vec) : result buffer :=
  let '(A, b, x_array) := construct_matrix bvp in
  let I := eye (shape bvp) in
  lhs <- mat_sub I (mat_scale (C bvp) A) ;;
  let rhs := vscale (C bvp) b in
  let u := zeros (length x_array) (length t) in
  t_0 <- item t 0 ;;
  u <- set_column (length x_array) u 0 (f_fun bvp x_array t_0) ;;
  for_each (seq 0 (length t - 1)) (fun ti u =>
    u_ti <- item u ti ;;
    r <- np_add u_ti rhs ;;
    if sparse bvp then
      u_next <- sp_linalg_spsolve lhs r ;;
      set_column (length x_array) u (ti + 1) u_next
    else
      u_next <- np_linalg_solve lhs r ;;
      set_column (length x_array) u (ti + 1) u_next) u.

(** [imex_euler(bvp, t)] (lines 234-254). *)
Definition imex_euler (bvp : BVP) (t : vec) : result buffer :=
  let '(A, b, x_array) := construct_matrix bvp in
  let I := eye (shape bvp) in
  lhs <- mat_sub I (mat_scale (C bvp) A) ;;
  let rhs := vscale (C bvp) b in
  let u := zeros (length x_array) (length t) in
  t_0 <- item t 0 ;;
  u <- set_column (length x_array) u 0 (f_fun bvp x_array t_0) ;;
  for_each (seq 0 (length t - 1)) (fun ti u =>
    u_ti <- item u ti ;;
    r <- np_add u_ti rhs ;;
    u_next <- np_linalg_solve lhs r ;;
    u <- set_column (length x_array) u (ti + 1) u_next ;;
    match q_fun bvp with
    | Some q =>
        t_ti <- item t ti ;;
        u_ti <- item u ti ;;
        u_new <- item u (ti + 1) ;;
        s <- np_add u_new (q x_array t_ti u_ti) ;;
        set_column (length x_array) u (ti + 1) s
    | None => Ok u
    end) u.

(** [crank_nicolson(bvp, t)] (lines 195-215). *)
Definition crank_nicolson (bvp : BVP) (t : vec) : result buffer :=
  let '(A, b, x_array) := construct_matrix bvp in
  let I := eye (shape bvp) in
  lhs <- mat_sub I (mat_div (mat_scale (C bvp) A) 2) ;;
  rhs <- mat_add I (mat_div (mat_scale (C bvp) A) 2) ;;
  let u := zeros (length x_array) (length t) in
  t_0 <- item t 0 ;;
  u <- set_column (length x_array) u 0 (f_fun bvp x_array t_0) ;;
  for_each (seq 0 (length t - 1)) (fun ti u =>
    u_ti <- item u ti ;;
    Ru <- matvec rhs u_ti ;;
    r <- np_add Ru (vscale (C bvp) b) ;;
    if sparse bvp then
      u_next <- sp_linalg_spsolve lhs r ;;
      set_column (length x_array) u (ti + 1) u_next
    else
      u_next <- np_linalg_solve lhs r ;;
      set_column (length x_array) u (ti + 1) u_next) u.

End Steppers.

End PDE.

(** ** Predicates on the times of a trajectory *)

(** Every time is later than the one before it, the first later than [t]. *)
Fixpoint ascending (t : Q) (l : list Q) : Prop :=
  match l with
  | [] => True
  | x :: l' => t < x /\ ascending x l'
  end.

(** Every time but the last is before [tf], and the last is not. *)
Fixpoint stops_at (tf : Q) (l : list Q) : Prop :=
  match l with
  | [] => False
  | [x] => tf <= x
  | x :: l' => x < tf /\ stops_at tf l'
  end.

(** A step function that calls its right-hand side at the point it is given
    and lets what it raises through. *)
Definition calls_field (step : step_function) : Prop :=
  forall (f : vector_field) t y h e, f t y = Raise e -> step f t y h = Raise e.

(** ** Inputs used in the examples *)

Module Inputs.

(** The vector field [f(t, y) = -y]. *)
Definition decay : IVP.ode_function := fun t y _ => Ok (map Qopp y).

(** [solve_ode] with the step functions of [OdeSolvers]. *)
Definition solve_ode :=
  IVP.solve_ode OdeSolvers.euler_step OdeSolvers.rk4_step OdeSolvers.heun_step.

(** [shooting] with the same step functions. *)
Definition shooting :=
  IVP.shooting OdeSolvers.euler_step OdeSolvers.rk4_step OdeSolvers.heun_step.

(** The default IVP capability of [shooting], with ten units of fuel. *)
Definition ode_solver : IVP.ode_solver_type :=
  IVP.solve_ode_as_solver OdeSolvers.euler_step OdeSolvers.rk4_step
    OdeSolvers.heun_step 10.


(** The phase condition [dy_0/dt = 0] of the vector field [decay]. *)
Definition decay_phase : IVP.phase_function_type :=
  fun t y args => dy <- decay t y args ;; item dy 0.

(** A root-finder that stops at its initial guess. *)
Definition root_at_guess : IVP.root_solver_type := fun _ x0 => Ok x0.

(** A diffusion problem on three grid points: the second-difference matrix,
    the boundary values in the forcing vector, [u(x, 0) = x]. *)
Definition heat : PDE.BVP :=
  {| PDE.alpha := 1; PDE.beta := 2; PDE.C := 1 # 2; PDE.D := 1; PDE.N := 3;
     PDE.shape := 3; PDE.sparse := false;
     PDE.f_fun := fun x _ => x;
     PDE.q_fun := None;
     PDE.construct_matrix :=
       ([[-2; 1; 0]; [1; -2; 1]; [0; 1; -2]], [1; 0; 2], [0; 1 # 2; 1]) |}.

(** A problem on one grid point, with the sparse flag set, and the same
    problem with the reaction term [q(x, t, u) = u]. *)
Definition point : PDE.BVP :=
  {| PDE.alpha := 1; PDE.beta := 2; PDE.C := 1 # 2; PDE.D := 1; PDE.N := 1;
     PDE.shape := 1; PDE.sparse := true;
     PDE.f_fun := fun x _ => x;
     PDE.q_fun := None;
     PDE.construct_matrix := ([[-2]], [3], [1 # 2]) |}.


(** A linear solve for systems of one equation. *)
Definition solve_1x1 : PDE.matrix -> vec -> result vec := fun M r =>
  match M, r with
  | [[a]], [x] =>
      if Qeq_bool a 0 then Raise (Exn LinAlgError "Singular matrix" [])
      else Ok [x / a]
  | _, _ => Raise (Exn LinAlgError "Last 2 dimensions of the array must be square" [])
  end.


(** The explicit stepper, and what the spec describes, with the step functions
    of [OdeSolvers]. *)
Definition explicit_method :=
  PDE.explicit_method OdeSolvers.euler_step OdeSolvers.rk4_step OdeSolvers.heun_step.
Definition explicit_method_selected :=
  PDE.explicit_method_selected OdeSolvers.euler_step OdeSolvers.rk4_step
    OdeSolvers.heun_step.

(** The three-point diffusion problem with the reaction term [q(x, t, u) = u]. *)
Definition reacting_heat : PDE.BVP :=
  {| PDE.alpha := 1; PDE.beta := 2; PDE.C := 1 # 2; PDE.D := 1; PDE.N := 3;
     PDE.shape := 3; PDE.sparse := false;
     PDE.f_fun := fun x _ => x;
     PDE.q_fun := Some (fun _ _ u => u);
     PDE.construct_matrix :=
       ([[-2; 1; 0]; [1; -2; 1]; [0; 1; -2]], [1; 0; 2], [0; 1 # 2; 1]) |}.

(** A vector field that returns one entry more than its argument has. *)
Definition longer : IVP.ode_function := fun t y _ => Ok (0 :: y).

(** A vector field that reads the second entry of the state. *)
Definition second_entry : IVP.ode_function := fun t y _ =>
  y_1 <- item y 1 ;; Ok [y_1].

(** The problem on one grid point started at its steady state [u = 3/2],
    where [A @ u + b = 0]. *)
Definition steady_point : PDE.BVP :=
  {| PDE.alpha := 1; PDE.beta := 2; PDE.C := 1 # 2; PDE.D := 1; PDE.N := 1;
     PDE.shape := 1; PDE.sparse := false;
     PDE.f_fun := fun _ _ => [3 # 2];
     PDE.q_fun := None;
     PDE.construct_matrix := ([[-2]], [3], [1 # 2]) |}.

End Inputs.

(** * Properties *)

(** ** Comparisons and outcomes *)

Lemma Qleb_true (x y : Q) : Qleb x y = true <-> x <= y.
Proof. unfold Qleb. apply Qle_bool_iff. Qed.

Lemma Qleb_false (x y : Q) : Qleb x y = false <-> y < x.
Proof.
  unfold Qleb. split; intro H.
  - apply Qnot_le_lt. intro Hle. apply Qle_bool_iff in Hle. congruence.
  - destruct (Qle_bool x y) eqn:E; [|reflexivity].
    apply Qle_bool_iff in E. lra.
Qed.

Lemma Qltb_true (x y : Q) : Qltb x y = true <-> x < y.
Proof.
  unfold Qltb. rewrite negb_true_iff. apply (Qleb_false y x).
Qed.

Lemma Qltb_false (x y : Q) : Qltb x y = false <-> y <= x.
Proof.
  unfold Qltb. rewrite negb_false_iff. apply (Qleb_true y x).
Qed.

Lemma bind_Ok {A B : Type} (m : result A) (k : A -> result B) (b : B) :
  bind m k = Ok b -> exists a, m = Ok a /\ k a = Ok b.
Proof.
  destruct m as [a| |]; simpl; intro H; try discriminate.
  exists a. split; [reflexivity | exact H].
Qed.

Ltac inv_bind H :=
  let a := fresh "a" in
  let Ha := fresh "Ha" in
  apply bind_Ok in H; destruct H as (a & Ha & H).

Lemma last_item_app {A : Type} (l : list A) (x : A) : last_item (l ++ [x]) = Ok x.
Proof. unfold last_item. rewrite rev_unit. reflexivity. Qed.


(** ** The stepping loop of [solve_ode] *)

Module LoopFacts.
Import IVP.

Lemma inject_nat_succ (k : nat) :
  inject_Z (Z.of_nat (S k)) == inject_Z (Z.of_nat k) + 1.
Proof. rewrite Nat2Z.inj_succ, <- Z.add_1_r, inject_Z_plus. reflexivity. Qed.

Section Loop.

Variable name : string.
Variable step : step_function.
Variable f : vector_field.
Hypothesis contract : step_contract f step.

Let method := PyFunction name step.

Lemma loop_step (m : pyvalue) fuel tf n_max t y dt i ts ys :
  solve_ode_loop (S fuel) m f tf n_max t y dt i ts ys
  = if loop_test tf n_max t i then
      '(t', y') <- call_method m f t y dt ;;
      solve_ode_loop fuel m f tf n_max t' y' (clamp tf t' dt) (i + 1)%Z
        (ts ++ [t']) (ys ++ [y'])
    else Ok (ts, ys).
Proof. reflexivity. Qed.



(** A first step that overshoots is taken with the full step size: the loop
    appends [t + deltat_max] and stops there. *)
Lemma loop_overshoot (tf : Q) (fuel : nat) t y dt i ts ys :
  t < tf -> tf < t + dt -> (2 <= fuel)%nat ->
  exists y',
    solve_ode_loop fuel method f (Some tf) None t y dt i ts ys
    = Ok (ts ++ [t + dt], ys ++ [y']).
Proof.
  intros Ht Hover Hf.
  destruct fuel as [|[|fuel]]; try lia. rewrite loop_step.
  replace (loop_test (Some tf) None t i) with true.
  2:{ unfold loop_test. symmetry. rewrite andb_true_r. apply Qltb_true. exact Ht. }
  destruct (contract t y dt) as [y' Hs]. unfold method at 1, call_method.
  rewrite Hs. cbn [bind]. rewrite loop_step.
  replace (loop_test (Some tf) None (t + dt) (i + 1)) with false.
  - exists y'. reflexivity.
  - unfold loop_test. symmetry. rewrite andb_true_r. apply Qltb_false. lra.
Qed.

End Loop.

End LoopFacts.

(** ** [solve_ode] *)

Module DriverFacts.
Import IVP LoopFacts.

Section Driver.

Variables euler_step rk4_step heun_step : step_function.

Let METHODS := METHODS euler_step rk4_step heun_step.
Let solve_ode := solve_ode euler_step rk4_step heun_step.

(** What [METHODS] holds is a function object. *)
Lemma METHODS_function (method : string) (m : pyvalue) :
  dict_get METHODS method = Some m ->
  exists name step, m = PyFunction name step
    /\ (step = euler_step \/ step = rk4_step \/ step = heun_step).
Proof.
  unfold METHODS, IVP.METHODS. simpl.
  repeat (destruct (String.eqb method _);
          [intro H; injection H as <-; eauto 6|]).
  discriminate.
Qed.

(** The test on [tf] never reaches [warnings.warn]: [method] is a function
    object by then and is compared with a string. *)
Lemma check_tf_no_warning (tf : option Q) (t0 : Q) (name : string) (step : step_function) :
  warnings (check_tf rk4_step tf t0 (PyFunction name step)) = [].
Proof.
  unfold check_tf. destruct tf as [tf|]; [|reflexivity].
  destruct (Qleb tf t0); [reflexivity|].
  destruct (Qltb tf (1 # 1000)); reflexivity.
Qed.

Lemma check_tf_passes (tf : option Q) (t0 : Q) (name : string) (step : step_function) :
  match tf with Some tf' => t0 < tf' | None => True end ->
  check_tf rk4_step tf t0 (PyFunction name step) = (Ok tt, []).
Proof.
  unfold check_tf. destruct tf as [tf|]; [|reflexivity].
  intro H. apply Qleb_false in H. rewrite H.
  destruct (Qltb tf (1 # 1000)); reflexivity.
Qed.

(** A call that passes every test of [solve_ode] is the stepping loop started
    at [(t0, y0)], with nothing written to the warning stream. *)
Lemma solve_ode_valid (fuel : nat) (fun_ : ode_function) (args : option (list Q))
    (t0 : Q) (y0 : vec) (tf : option Q) (n_max : option Z)
    (method : string) (deltat_max : Q) (array : vec) (name : string) (step : step_function) :
  bind_args fun_ args t0 y0 = Ok array -> length array = length y0 ->
  dict_get METHODS method = Some (PyFunction name step) ->
  (tf <> None \/ n_max <> None) ->
  match tf with Some tf' => t0 < tf' | None => True end ->
  match n_max with Some n => (0 < n)%Z | None => True end ->
  0 < deltat_max ->
  solve_ode fuel fun_ t0 y0 tf n_max method deltat_max args
  = (solve_ode_loop fuel (PyFunction name step) (bind_args fun_ args) tf n_max
       t0 y0 deltat_max 0%Z [t0] [y0], []).
Proof.
  intros Hfun Hlen Hm Hbound Htf Hn Hdt.
  unfold solve_ode, IVP.solve_ode. rewrite Hfun. cbn [try_except wlift wbind].
  rewrite Hlen, Nat.eqb_refl. cbn [negb].
  fold METHODS. rewrite Hm.
  replace (match tf, n_max with None, None => true | _, _ => false end) with false
    by (destruct tf, n_max; try reflexivity; destruct Hbound; congruence).
  rewrite (check_tf_passes tf t0 name step Htf). cbn [wbind].
  replace (match n_max with Some n => (n <=? 0)%Z | None => false end) with false
    by (destruct n_max; [symmetry; apply Z.leb_gt; exact Hn | reflexivity]).
  apply Qleb_false in Hdt. rewrite Hdt.
  unfold wlift. destruct (solve_ode_loop _ _ _ _ _ _ _ _ _ _ _); reflexivity.
Qed.

End Driver.

End DriverFacts.

(** ** The step functions of [OdeSolvers] meet the contract *)

Module StepFacts.
Import OdeSolvers.

Lemma np_add_same_length (a b : vec) :
  length a = length b ->
  np_add a b = Ok (zip_with Qplus a b).
Proof.
  intro H. unfold np_add, np_binop. rewrite H, Nat.eqb_refl. reflexivity.
Qed.

Lemma zip_with_length {A B C : Type} (g : A -> B -> C) (a : list A) (b : list B) :
  length (zip_with g a b) = Nat.min (length a) (length b).
Proof.
  revert b. induction a as [|x a IH]; intros [|y b]; simpl; try reflexivity.
  rewrite IH. reflexivity.
Qed.

Lemma vscale_length (c : Q) (v : vec) : length (vscale c v) = length v.
Proof. apply length_map. Qed.

Ltac lengths :=
  repeat (rewrite vscale_length in * || rewrite zip_with_length in *); lia.

Ltac step_add :=
  rewrite np_add_same_length by lengths; cbn [bind].

Lemma euler_step_contract (f : vector_field) :
  shape_preserving f -> step_contract f euler_step.
Proof.
  intros Hf t y h. unfold euler_step.
  destruct (Hf t y) as (k1 & -> & L1). cbn [bind].
  step_add. eexists. reflexivity.
Qed.

Lemma heun_step_contract (f : vector_field) :
  shape_preserving f -> step_contract f heun_step.
Proof.
  intros Hf t y h. unfold heun_step.
  destruct (Hf t y) as (k1 & -> & L1). cbn [bind].
  step_add.
  destruct (Hf (t + h) (zip_with Qplus y (vscale h k1))) as (k2 & -> & L2). cbn [bind].
  do 2 step_add.
  eexists. reflexivity.
Qed.

Lemma rk4_step_contract (f : vector_field) :
  shape_preserving f -> step_contract f rk4_step.
Proof.
  intros Hf t y h. unfold rk4_step.
  destruct (Hf t y) as (k1 & -> & L1). cbn [bind].
  step_add.
  destruct (Hf (t + h / 2) (zip_with Qplus y (vscale (h / 2) k1))) as (k2 & -> & L2).
  cbn [bind]. step_add.
  destruct (Hf (t + h / 2) (zip_with Qplus y (vscale (h / 2) k2))) as (k3 & -> & L3).
  cbn [bind]. step_add.
  destruct (Hf (t + h) (zip_with Qplus y (vscale h k3))) as (k4 & -> & L4).
  cbn [bind]. do 4 step_add.
  eexists. reflexivity.
Qed.

Lemma decay_shape_preserving (args : option (list Q)) :
  shape_preserving (IVP.bind_args Inputs.decay args).
Proof.
  intros t y. exists (map Qopp y). split.
  - destruct args; reflexivity.
  - apply length_map.
Qed.

End StepFacts.

(** ** Termination, the clamp and the warning of [solve_ode] *)

Import IVP LoopFacts DriverFacts.

Lemma ceiling_steps (t0 tf dt : Q) :
  t0 < tf -> 0 < dt ->
  tf - t0 <= inject_Z (Z.of_nat (Z.to_nat (Qceiling ((tf - t0) / dt)))) * dt.
Proof.
  intros Ht Hdt.
  assert (Hr : 0 < (tf - t0) / dt).
  { apply Qlt_shift_div_l; lra. }
  pose proof (Qle_ceiling ((tf - t0) / dt)) as Hc.
  assert (Hpos : (0 <= Qceiling ((tf - t0) / dt))%Z).
  { rewrite Zle_Qle. change (inject_Z 0) with 0. lra. }
  rewrite Z2Nat.id by exact Hpos.
  assert (He : tf - t0 == (tf - t0) / dt * dt) by (field; lra).
  rewrite He at 1. apply Qmult_le_compat_r; lra.
Qed.

(** A first step that would overshoot is not clamped: for [t0 < tf <
    t0 + deltat_max] the times returned are [t0] and [t0 + deltat_max]. *)
Lemma solve_ode_first_step_unclamped
    (euler_step rk4_step heun_step : step_function) (fuel : nat)
    (fun_ : ode_function) (args : option (list Q)) (t0 : Q) (y0 array : vec)
    (tf : Q) (method name : string) (step : step_function) (deltat_max : Q) :
  bind_args fun_ args t0 y0 = Ok array -> length array = length y0 ->
  dict_get (METHODS euler_step rk4_step heun_step) method = Some (PyFunction name step) ->
  step_contract (bind_args fun_ args) step ->
  t0 < tf -> tf < t0 + deltat_max -> (2 <= fuel)%nat ->
  exists y1,
    solve_ode euler_step rk4_step heun_step fuel fun_ t0 y0 (Some tf) None
      method deltat_max args
    = (Ok ([t0; t0 + deltat_max], [y0; y1]), []).
Proof.
  intros Hfun Hlen Hm Hc Ht Hover Hfuel.
  rewrite (solve_ode_valid euler_step rk4_step heun_step fuel fun_ args t0 y0
             (Some tf) None method deltat_max array name step)
    by (auto; try lra; left; discriminate).
  destruct (loop_overshoot name step _ Hc tf fuel t0 y0 deltat_max 0%Z [t0] [y0])
    as (y1 & ->); auto.
  exists y1. reflexivity.
Qed.



(** C1.  With the default [deltat_max = 0.01] the call
    [solve_ode(f, 0, y0, tf=0.005)] returns the times [0, 0.01]: the first
    step is taken before the clamp is tested, and the last time is not [tf]. *)
Theorem solve_ode_short_horizon_overshoots :
  exists y1,
    Inputs.solve_ode 3 Inputs.decay 0 [1] (Some (1 # 200)) None
      default_method default_deltat_max None
    = (Ok ([0; 1 # 100], [[1]; y1]), [])
    /\ ~ (1 # 100 == 1 # 200).
Proof.
  eexists. split.
  - vm_compute. reflexivity.
  - intro H. discriminate H.
Qed.

(** C7.  No call of [solve_ode] writes to the warning stream; in particular
    the call with method ['RK4'] and [tf = 0.0005] returns its trajectory
    with no warning. *)
Theorem solve_ode_rk4_small_tf_no_warning :
  (forall (euler_step rk4_step heun_step : step_function) (fuel : nat)
          (fun_ : ode_function) (t0 : Q) (y0 : vec) (tf : option Q)
          (n_max : option Z) (method : string) (deltat_max : Q)
          (args : option (list Q)),
      warnings (solve_ode euler_step rk4_step heun_step fuel fun_ t0 y0 tf n_max
                  method deltat_max args) = [])
  /\
  (exists ts ys,
      Inputs.solve_ode 3 Inputs.decay 0 [1] (Some (1 # 2000)) None
        "RK4" default_deltat_max None = (Ok (ts, ys), [])).
Proof.
  split.
  - intros. unfold solve_ode, warnings.
    destruct (bind_args fun_ args t0 y0) as [array| |]; cbn [try_except wlift wbind snd];
      try reflexivity.
    destruct (negb (length y0 =? length array)%nat); [reflexivity|].
    destruct (dict_get (METHODS euler_step rk4_step heun_step) method) as [m|] eqn:Hm;
      [|reflexivity].
    destruct (METHODS_function _ _ _ _ _ Hm) as (name & step & -> & _).
    destruct (match tf, n_max with None, None => true | _, _ => false end);
      [reflexivity|].
    pose proof (check_tf_no_warning rk4_step tf t0 name step) as Hw.
    unfold warnings in Hw.
    destruct (check_tf rk4_step tf t0 (PyFunction name step)) as [[[]| |] log];
      simpl in Hw; subst log; cbn [wbind]; try reflexivity.
    destruct (match n_max with Some n => (n <=? 0)%Z | None => false end);
      [reflexivity|].
    destruct (Qleb deltat_max 0); [reflexivity|].
    reflexivity.
  - eexists. eexists. vm_compute. reflexivity.
Qed.

(** ** Lists updated by index *)

Lemma item_Ok {A : Type} (l : list A) (i : nat) (x : A) :
  item l i = Ok x <-> nth_error l i = Some x.
Proof.
  unfold item. destruct (nth_error l i); split; intro H; try discriminate;
    injection H as ->; reflexivity.
Qed.

Lemma item_in_range {A : Type} (l : list A) (i : nat) :
  (i < length l)%nat -> exists x, item l i = Ok x.
Proof.
  intro H. unfold item. destruct (nth_error l i) as [x|] eqn:E; [eauto|].
  apply nth_error_None in E. lia.
Qed.

Lemma set_item_Ok {A : Type} (l : list A) (i : nat) (v : A) (l' : list A) :
  set_item l i v = Ok l' ->
  (i < length l)%nat /\ length l' = length l /\ nth_error l' i = Some v
  /\ forall j, j <> i -> nth_error l' j = nth_error l j.
Proof.
  revert i l'. induction l as [|x l IH]; intros [|i] l' H; simpl in H; try discriminate.
  - injection H as <-. simpl. repeat split; try lia.
    intros [|j] Hj; [congruence | reflexivity].
  - inv_bind H. injection H as <-.
    destruct (IH _ _ Ha) as (H1 & H2 & H3 & H4).
    simpl. repeat split; try lia; auto.
    intros [|j] Hj; [reflexivity|]. simpl. apply H4. congruence.
Qed.

Lemma set_item_in_range {A : Type} (l : list A) (i : nat) (v : A) :
  (i < length l)%nat -> exists l', set_item l i v = Ok l'.
Proof.
  revert i. induction l as [|x l IH]; intros [|i] H; simpl in *; try lia; eauto.
  destruct (IH i) as [l' ->]; [lia|]. simpl. eauto.
Qed.

Lemma set_last_item_app {A : Type} (l : list A) (z v : A) :
  set_last_item (l ++ [z]) v = Ok (l ++ [v]).
Proof.
  unfold set_last_item. destruct (l ++ [z]) as [|x l1] eqn:E.
  - destruct l; discriminate.
  - rewrite <- E, removelast_last. reflexivity.
Qed.

Lemma set_last_item_Ok {A : Type} (l : list A) (v : A) (l' : list A) :
  set_last_item l v = Ok l' ->
  length l' = length l /\ nth_error l' (length l - 1) = Some v
  /\ forall j, (j < length l - 1)%nat -> nth_error l' j = nth_error l j.
Proof.
  destruct l as [|x l] using rev_ind; [discriminate|].
  rewrite set_last_item_app. intro H. injection H as <-.
  rewrite !length_app. simpl. repeat split.
  - rewrite nth_error_app2 by lia.
    replace (length l + 1 - 1 - length l)%nat with 0%nat by lia. reflexivity.
  - intros j Hj. rewrite !nth_error_app1 by lia. reflexivity.
Qed.


Lemma np_zeros_length (n : nat) : length (np_zeros n) = n.
Proof. apply repeat_length. Qed.

(** ** The residual of the shooting method *)

Module ShootingFacts.
Import IVP.

Section Residual.

Variable y : list vec.
Variable Y0 : vec.

Let fill := periodicity y Y0.

Lemma fill_loop (m : nat) :
  forall (s : nat) (c c' : vec),
    for_each (seq s m) fill c = Ok c' ->
    length c' = length c
    /\ (forall i, (s <= i < s + m)%nat ->
         exists y_T a b, last_item y = Ok y_T /\ nth_error y_T i = Some a
                         /\ nth_error Y0 i = Some b /\ nth_error c' i = Some (a - b))
    /\ (forall i, ~ (s <= i < s + m)%nat -> nth_error c' i = nth_error c i).
Proof.
  induction m as [|m IH]; intros s c c' H; simpl in H.
  - injection H as <-. repeat split; auto. intros i Hi. lia.
  - inv_bind H. rename a into c1.
    unfold fill, periodicity in Ha. inv_bind Ha. rename a into y_T.
    inv_bind Ha. rename a into a1. inv_bind Ha. rename a into b1.
    apply item_Ok in Ha1, Ha2.
    destruct (set_item_Ok _ _ _ _ Ha) as (_ & Hl1 & Hs1 & Ho1).
    destruct (IH _ _ _ H) as (Hl & Hin & Hout).
    repeat split.
    + congruence.
    + intros i Hi. destruct (Nat.eq_dec i s) as [-> | Hne].
      * exists y_T, a1, b1. repeat split; auto.
        rewrite Hout by lia. exact Hs1.
      * apply Hin. lia.
    + intros i Hi. rewrite Hout by lia. apply Ho1. lia.
Qed.

Lemma fill_loop_returns (m : nat) (y_T : vec) :
  last_item y = Ok y_T ->
  forall (s : nat) (c : vec),
    (s + m <= length y_T)%nat -> (s + m <= length Y0)%nat -> (s + m <= length c)%nat ->
    exists c', for_each (seq s m) fill c = Ok c'.
Proof.
  intro Hy. induction m as [|m IH]; intros s c H1 H2 H3; simpl; [eauto|].
  unfold fill at 1, periodicity. rewrite Hy. cbn [bind].
  destruct (item_in_range y_T s) as [a ->]; [lia|].
  destruct (item_in_range Y0 s) as [b ->]; [lia|]. cbn [bind].
  destruct (set_item_in_range c s (a - b)) as [c1 Hc1]; [lia|].
  rewrite Hc1. cbn [bind].
  apply set_item_Ok in Hc1. apply IH; lia.
Qed.

End Residual.

End ShootingFacts.

Import ShootingFacts.

(** C3.  When [shooting_root] returns a residual for the candidate
    [Y0 ++ [T]], the residual is as long as the candidate; its entry [i], for
    each state component, is [y(T)[i] - Y0[i]] for [y(T)] the last state of
    the trajectory the IVP capability returns from [t = 0], [Y0] and
    [tf = T]; its last entry is [phase_function(0, Y0)]. *)
Theorem shooting_root_residual
    (ode : ode_function) (phase_function : Q -> vec -> result Q)
    (ode_solver : ode_solver_type) (function_args : option (list Q))
    (Y0 : vec) (T : Q) (residual : vec) :
  shooting_root ode phase_function ode_solver function_args (Y0 ++ [T]) = Ok residual ->
  length residual = length (Y0 ++ [T])
  /\ exists t y,
       ode_solver ode 0 Y0 (Some T) function_args = Ok (t, y)
       /\ (forall i, (i < length Y0)%nat ->
            exists y_T a b,
              last_item y = Ok y_T /\ nth_error y_T i = Some a
              /\ nth_error Y0 i = Some b /\ nth_error residual i = Some (a - b))
       /\ exists p, phase_function 0 Y0 = Ok p
                    /\ nth_error residual (length Y0) = Some p.
Proof.
  unfold shooting_root. rewrite last_item_app, removelast_last. cbn [bind].
  intro H. inv_bind H. destruct a as [t y].
  inv_bind H. rename a into c. inv_bind H. rename a into p.
  rewrite length_app in *. simpl length in *.
  replace (length Y0 + 1 - 1)%nat with (length Y0) in Ha0 by lia.
  destruct (fill_loop y Y0 _ _ _ _ Ha0) as (Hl & Hin & _).
  rewrite np_zeros_length in Hl.
  destruct (set_last_item_Ok _ _ _ H) as (Hl' & Hlast & Hrest).
  rewrite Hl in Hl', Hlast, Hrest.
  replace (length Y0 + 1 - 1)%nat with (length Y0) in Hlast, Hrest by lia.
  split; [exact Hl'|]. exists t, y. split; [exact Ha|]. split.
  - intros i Hi. destruct (Hin i) as (y_T & a & b & E1 & E2 & E3 & E4); [lia|].
    exists y_T, a, b. repeat split; auto. rewrite Hrest by exact Hi. exact E4.
  - exists p. split; [exact Ha1 | exact Hlast].
Qed.

(** The residual of the candidate [[1; 1/50]] for [f(t, y) = -y], through the
    default IVP capability. *)
Lemma shooting_root_residual_witness :
  exists residual,
    shooting_root Inputs.decay (bind_args Inputs.decay_phase None)
      Inputs.ode_solver None ([1] ++ [1 # 50]) = Ok residual
    /\ length residual = 2%nat
    /\ exists t y,
         Inputs.ode_solver Inputs.decay 0 [1] (Some (1 # 50)) None = Ok (t, y)
         /\ (forall i, (i < 1)%nat ->
              exists y_T a b,
                last_item y = Ok y_T /\ nth_error y_T i = Some a
                /\ nth_error [1] i = Some b /\ nth_error residual i = Some (a - b))
         /\ exists p, bind_args Inputs.decay_phase None 0 [1] = Ok p
                      /\ nth_error residual 1 = Some p.
Proof.
  eexists. split.
  - vm_compute. reflexivity.
  - apply (shooting_root_residual Inputs.decay (bind_args Inputs.decay_phase None)
             Inputs.ode_solver None [1] (1 # 50)).
    vm_compute. reflexivity.
Defined.

(** [shooting_root] returns whenever the IVP capability returns a trajectory
    whose last state has an entry for every component of [Y0] and the phase
    function returns. *)
Lemma shooting_root_returns
    (ode : ode_function) (phase_function : Q -> vec -> result Q)
    (ode_solver : ode_solver_type) (function_args : option (list Q))
    (Y0 : vec) (T : Q) (t : list Q) (y : list vec) (y_T : vec) (p : Q) :
  ode_solver ode 0 Y0 (Some T) function_args = Ok (t, y) ->
  last_item y = Ok y_T -> (length Y0 <= length y_T)%nat ->
  phase_function 0 Y0 = Ok p ->
  exists residual,
    shooting_root ode phase_function ode_solver function_args (Y0 ++ [T]) = Ok residual.
Proof.
  intros Hs Hy Hlen Hp.
  unfold shooting_root. rewrite last_item_app, removelast_last. cbn [bind].
  rewrite Hs. cbn [bind].
  rewrite length_app. simpl length.
  replace (length Y0 + 1 - 1)%nat with (length Y0) by lia.
  destruct (fill_loop_returns y Y0 (length Y0) y_T Hy 0 (np_zeros (length Y0 + 1)))
    as [c Hc]; try (rewrite ?np_zeros_length; simpl; lia).
  rewrite Hc. cbn [bind]. rewrite Hp. cbn [bind].
  destruct (fill_loop y Y0 _ _ _ _ Hc) as (Hl & _).
  rewrite np_zeros_length in Hl.
  destruct c as [|c0 c] using rev_ind; [simpl in Hl; lia|].
  rewrite set_last_item_app. eauto.
Qed.


(** ** The postconditions of [shooting] *)








(** With the default IVP capability a non-positive period does not reach the
    test on [T]: [solve_ode] rejects [tf <= t0] when the residual is
    evaluated. *)
Lemma solve_ode_rejects_horizon
    (euler_step rk4_step heun_step : step_function) (fuel : nat)
    (fun_ : ode_function) (args : option (list Q)) (t0 : Q) (y0 array : vec)
    (tf : Q) (n_max : option Z) (method : string) (m : pyvalue) (deltat_max : Q) :
  bind_args fun_ args t0 y0 = Ok array -> length array = length y0 ->
  dict_get (METHODS euler_step rk4_step heun_step) method = Some m ->
  tf <= t0 ->
  solve_ode euler_step rk4_step heun_step fuel fun_ t0 y0 (Some tf) n_max
    method deltat_max args
  = (Raise (Exn ValueError "tf must be greater than t0." []), []).
Proof.
  intros Hfun Hlen Hm Htf.
  unfold solve_ode. rewrite Hfun. cbn [try_except wlift wbind].
  rewrite Hlen, Nat.eqb_refl. cbn [negb]. rewrite Hm.
  unfold check_tf. apply Qleb_true in Htf. rewrite Htf. reflexivity.
Qed.

Lemma shooting_root_default_rejects
    (euler_step rk4_step heun_step : step_function) (fuel : nat)
    (ode : ode_function) (phase_function : Q -> vec -> result Q)
    (function_args : option (list Q)) (Y0 array : vec) (T : Q) :
  bind_args ode function_args 0 Y0 = Ok array -> length array = length Y0 ->
  T <= 0 ->
  shooting_root ode phase_function
    (solve_ode_as_solver euler_step rk4_step heun_step fuel) function_args (Y0 ++ [T])
  = Raise (Exn ValueError "tf must be greater than t0." []).
Proof.
  intros Hfun Hlen HT. unfold shooting_root, solve_ode_as_solver.
  rewrite last_item_app, removelast_last. cbn [bind].
  rewrite (solve_ode_rejects_horizon euler_step rk4_step heun_step fuel ode
             function_args 0 Y0 array T None default_method
             (PyFunction "rk4_step" rk4_step) default_deltat_max Hfun Hlen eq_refl HT).
  reflexivity.
Qed.


(** ** The state-by-time buffer *)

Module BufferFacts.
Import PDE.

Lemma zeros_shaped (nx nt : nat) : shaped nx nt (zeros nx nt).
Proof.
  unfold shaped, zeros. split; [apply repeat_length|].
  apply Forall_forall. intros col H. apply repeat_spec in H. subst.
  apply np_zeros_length.
Qed.

Lemma broadcast_to_length (n : nat) (v col : vec) :
  broadcast_to n v = Ok col -> length col = n.
Proof.
  unfold broadcast_to. destruct (length v =? n)%nat eqn:E.
  - intro H. injection H as <-. apply Nat.eqb_eq, E.
  - destruct v as [|x [|y v]]; try discriminate.
    intro H. injection H as <-. apply repeat_length.
Qed.

Lemma broadcast_to_halts (n : nat) (v : vec) : broadcast_to n v <> OutOfFuel.
Proof.
  unfold broadcast_to. destruct (length v =? n)%nat; [discriminate|].
  destruct v as [|x [|y v]]; discriminate.
Qed.

Lemma shaped_set_item (nx nt : nat) (u u' : buffer) (j : nat) (col : vec) :
  shaped nx nt u -> length col = nx -> set_item u j col = Ok u' -> shaped nx nt u'.
Proof.
  intros [Hl Hc] Hcol H. destruct (set_item_Ok _ _ _ _ H) as (Hj & Hl' & Hj' & Ho).
  split; [congruence|].
  apply Forall_forall. intros c Hin.
  apply In_nth_error in Hin. destruct Hin as [k Hk].
  destruct (Nat.eq_dec k j) as [-> | Hne].
  - pose proof (eq_trans (eq_sym Hk) Hj') as E. injection E as ->. exact Hcol.
  - rewrite Ho in Hk by exact Hne. apply nth_error_In in Hk.
    rewrite Forall_forall in Hc. auto.
Qed.

Lemma shaped_column (nx nt : nat) (u : buffer) (j : nat) :
  shaped nx nt u -> (j < nt)%nat ->
  exists col, item u j = Ok col /\ length col = nx.
Proof.
  intros [Hl Hc] Hj. destruct (item_in_range u j) as [col Hcol]; [lia|].
  exists col. split; [exact Hcol|].
  apply item_Ok, nth_error_In in Hcol. rewrite Forall_forall in Hc. auto.
Qed.

Lemma sequence_map_Ok {A B : Type} (g : A -> result B) (l : list A) :
  (forall x, In x l -> exists y, g x = Ok y) ->
  exists l', sequence (map g l) = Ok l' /\ Forall2 (fun x y => g x = Ok y) l l'.
Proof.
  induction l as [|x l IH]; intro H; simpl.
  - exists []. split; [reflexivity | constructor].
  - destruct (H x) as [y Hy]; [now left|]. rewrite Hy. cbn [bind].
    destruct IH as (l' & -> & HF); [intros; apply H; now right|]. cbn [bind].
    exists (y :: l'). split; [reflexivity | constructor; assumption].
Qed.

Lemma shaped_Forall2 (nx nt : nat) (u u' : buffer) (g : vec -> result vec) :
  shaped nx nt u ->
  (forall c c', g c = Ok c' -> length c' = length c) ->
  Forall2 (fun x y => g x = Ok y) u u' -> shaped nx nt u'.
Proof.
  intros [Hl Hc] Hg HF. split.
  - rewrite <- Hl. symmetry. eapply Forall2_length, HF.
  - clear Hl. induction HF as [|c c' u u' Hcc HF IH]; constructor.
    + inversion Hc as [|? ? Hh Ht]. rewrite (Hg _ _ Hcc). exact Hh.
    + inversion Hc as [|? ? Hh Ht]. auto.
Qed.

Lemma set_first_row_shaped (nx nt : nat) (u : buffer) (a : Q) :
  shaped nx nt u -> (0 < nx)%nat ->
  exists u', set_first_row u a = Ok u' /\ shaped nx nt u'.
Proof.
  intros Hs Hnx. unfold set_first_row.
  destruct (sequence_map_Ok (fun col => set_item col 0 a) u) as (u' & E & HF).
  - intros c Hc. apply set_item_in_range.
    destruct Hs as [_ Hs]. rewrite Forall_forall in Hs. rewrite (Hs c Hc). exact Hnx.
  - exists u'. split; [exact E|].
    eapply shaped_Forall2; [exact Hs | | exact HF].
    intros c c' H. apply set_item_Ok in H. tauto.
Qed.

Lemma set_last_row_shaped (nx nt : nat) (u : buffer) (a : Q) :
  shaped nx nt u -> (0 < nx)%nat ->
  exists u', set_last_row u a = Ok u' /\ shaped nx nt u'.
Proof.
  intros Hs Hnx. unfold set_last_row.
  destruct (sequence_map_Ok (fun col => set_last_item col a) u) as (u' & E & HF).
  - intros c Hc. destruct Hs as [_ Hs]. rewrite Forall_forall in Hs.
    specialize (Hs c Hc). destruct c as [|x c]; [simpl in Hs; lia|].
    unfold set_last_item. eauto.
  - exists u'. split; [exact E|].
    eapply shaped_Forall2; [exact Hs | | exact HF].
    intros c c' H. apply set_last_item_Ok in H. tauto.
Qed.

Lemma get_shaped (nx nt : nat) (u : buffer) (i j : nat) :
  shaped nx nt u -> (i < nx)%nat -> (j < nt)%nat -> exists v, get u i j = Ok v.
Proof.
  intros Hs Hi Hj. unfold get.
  destruct (shaped_column nx nt u j Hs Hj) as (col & -> & Hl). cbn [bind].
  apply item_in_range. lia.
Qed.

Lemma set_shaped (nx nt : nat) (u : buffer) (i j : nat) (v : Q) :
  shaped nx nt u -> (i < nx)%nat -> (j < nt)%nat ->
  exists u', set u i j v = Ok u' /\ shaped nx nt u'.
Proof.
  intros Hs Hi Hj. unfold set.
  destruct (shaped_column nx nt u j Hs Hj) as (col & -> & Hl). cbn [bind].
  destruct (set_item_in_range col i v) as [col' Hcol']; [lia|].
  rewrite Hcol'. cbn [bind].
  destruct (set_item_in_range u j col') as [u' Hu']; [destruct Hs; lia|].
  exists u'. split; [exact Hu'|].
  apply set_item_Ok in Hcol'.
  eapply shaped_set_item; [exact Hs | | exact Hu']. lia.
Qed.

(** A loop whose body keeps an invariant and returns, returns. *)
Lemma for_each_invariant {S : Type} (P : S -> Prop) (l : list nat)
    (body : nat -> S -> result S) :
  (forall i s, In i l -> P s -> exists s', body i s = Ok s' /\ P s') ->
  forall s, P s -> exists s', for_each l body s = Ok s' /\ P s'.
Proof.
  induction l as [|i l IH]; intros Hbody s Hs; simpl.
  - eauto.
  - destruct (Hbody i s) as (s1 & -> & Hs1); [now left | exact Hs|]. cbn [bind].
    apply IH; [|exact Hs1]. intros. apply Hbody; [now right | assumption].
Qed.

End BufferFacts.

(** ** [explicit_euler] *)

Import PDE BufferFacts.

Section ExplicitEuler.

Variable bvp : BVP.
Variable nx nt : nat.

(** The body of the loop over the interior rows, at time index [ti]. *)
Let interior (ti xi : nat) (u : buffer) : result buffer :=
  if (xi =? 0)%nat then
    set u xi (ti + 1) (alpha bvp)
  else if (0 <? xi)%nat && (Z.of_nat xi <? N bvp)%Z then
    u_c <- get u xi ti ;;
    u_l <- get u (xi - 1) ti ;;
    u_r <- get u (xi + 1) ti ;;
    set u xi (ti + 1) (u_c + C bvp * (u_l - 2 * u_c + u_r))
  else
    u_c <- get u xi ti ;;
    u_l <- get u (xi - 1) ti ;;
    set u xi (ti + 1) (u_c + C bvp * (beta bvp - 2 * u_c + u_l)).

Lemma interior_shaped (ti xi : nat) (u : buffer) :
  shaped nx nt u -> (ti + 1 < nt)%nat -> (1 <= xi)%nat -> (xi + 1 < nx)%nat ->
  exists u', interior ti xi u = Ok u' /\ shaped nx nt u'.
Proof.
  intros Hs Hti Hx1 Hx2. unfold interior.
  destruct (xi =? 0)%nat; [apply set_shaped; auto; lia|].
  destruct (get_shaped nx nt u xi ti Hs) as [u_c Hc]; try lia.
  destruct (get_shaped nx nt u (xi - 1) ti Hs) as [u_l Hl]; try lia.
  destruct (get_shaped nx nt u (xi + 1) ti Hs) as [u_r Hr]; try lia.
  destruct ((0 <? xi)%nat && (Z.of_nat xi <? N bvp)%Z).
  - rewrite Hc, Hl, Hr. cbn [bind]. apply set_shaped; auto; lia.
  - rewrite Hc, Hl. cbn [bind]. apply set_shaped; auto; lia.
Qed.

Lemma time_loop_shaped (u : buffer) :
  shaped nx nt u ->
  exists u',
    for_each (seq 0 (nt - 1)) (fun ti u =>
      for_each (seq 1 (nx - 1 - 1)) (interior ti) u) u = Ok u'
    /\ shaped nx nt u'.
Proof.
  apply for_each_invariant. intros ti u0 Hti Hu0.
  apply in_seq in Hti.
  apply for_each_invariant; [|exact Hu0].
  intros xi u1 Hxi Hu1. apply in_seq in Hxi.
  apply interior_shaped; auto; lia.
Qed.

End ExplicitEuler.

(** C9.  [explicit_euler] never returns an array: whenever it returns, its
    value is [None].  It returns for every time grid with an entry and every
    descriptor with a grid point whose initial condition fits the rows of the
    buffer; otherwise an indexing or shape error is raised before the loop. *)
Theorem explicit_euler_returns_None (bvp : BVP) (t : vec) :
  let x_array := snd (construct_matrix bvp) in
  match explicit_euler bvp t with
  | Ok solution => solution = None
  | Raise _ =>
      t = [] \/ x_array = []
      \/ exists e, broadcast_to (length x_array) (f_fun bvp x_array (hd 0 t)) = Raise e
  | OutOfFuel => False
  end.
Proof.
  unfold explicit_euler. destruct (construct_matrix bvp) as [[A b] x_array].
  cbn [snd]. destruct t as [|t_0 t]; [simpl; now left|].
  cbn [item nth_error bind hd]. unfold set_column.
  destruct (broadcast_to (length x_array) (f_fun bvp x_array t_0)) as [col|e|] eqn:Hb.
  2:{ simpl. right. right. eauto. }
  2:{ now apply broadcast_to_halts in Hb. }
  cbn [bind zeros repeat length set_item].
  assert (Hs : shaped (length x_array) (S (length t))
                 (col :: repeat (np_zeros (length x_array)) (length t))).
  { destruct (zeros_shaped (length x_array) (length t)) as [H1 H2].
    split; [simpl; f_equal; exact H1|].
    constructor; [eapply broadcast_to_length; eassumption | exact H2]. }
  destruct x_array as [|x0 x_array].
  - (* no grid point: [u[0, :]] is out of range *)
    apply broadcast_to_length in Hb. destruct col; [|discriminate Hb].
    simpl. right. now left.
  - destruct (set_first_row_shaped _ _ _ (alpha bvp) Hs) as (u1 & -> & Hs1);
      [simpl; lia|]. cbn [bind].
    destruct (set_last_row_shaped _ _ _ (beta bvp) Hs1) as (u2 & -> & Hs2);
      [simpl; lia|]. cbn [bind].
    destruct (time_loop_shaped bvp _ _ u2 Hs2) as (u3 & Hu3 & _).
    change (length (t_0 :: t)) with (S (length t)).
    rewrite Hu3. reflexivity.
Qed.

(** ** [explicit_method] *)

(** C2.  [explicit_method] looks its [method] argument up and then steps with
    [euler_step]: for every descriptor and time grid the names ['RK4'] and
    ['Heun'] give the result of ['Euler'].  On the three-point diffusion
    problem with the grid [[0; 1]], row 0 of column 1 is [3/4] for
    [method='RK4'], where stepping with the RK4 step gives [95/96]. *)
Theorem explicit_method_ignores_method :
  (forall (euler_step rk4_step heun_step : step_function) (bvp : BVP) (t : vec),
      explicit_method euler_step rk4_step heun_step bvp t "RK4"
      = explicit_method euler_step rk4_step heun_step bvp t "Euler"
      /\ explicit_method euler_step rk4_step heun_step bvp t "Heun"
         = explicit_method euler_step rk4_step heun_step bvp t "Euler")
  /\
  (exists u u_rk4 a a_rk4,
      Inputs.explicit_method Inputs.heat [0; 1] "RK4" = Ok u
      /\ Inputs.explicit_method_selected Inputs.heat [0; 1] "RK4" = Ok u_rk4
      /\ get u 0 1 = Ok a /\ get u_rk4 0 1 = Ok a_rk4
      /\ a == 3 # 4 /\ a_rk4 == 95 # 96).
Proof.
  split.
  - intros. split; reflexivity.
  - do 4 eexists. repeat split; try (vm_compute; reflexivity).
Qed.

(** C8.  On the three-point diffusion problem with the grid [[0; 1]] the
    first and last rows of column 0 are [alpha = 1] and [beta = 2]; the step
    writes the whole of column 1, whose first row is [3/4] and last row
    [5/4]. *)
Theorem explicit_method_overwrites_boundary_rows :
  exists u a0 b0 a1 b1,
    Inputs.explicit_method Inputs.heat [0; 1] "Euler" = Ok u
    /\ get u 0 0 = Ok a0 /\ get u 2 0 = Ok b0
    /\ get u 0 1 = Ok a1 /\ get u 2 1 = Ok b1
    /\ a0 == alpha Inputs.heat /\ b0 == beta Inputs.heat
    /\ a1 == 3 # 4 /\ b1 == 5 # 4
    /\ ~ a1 == alpha Inputs.heat /\ ~ b1 == beta Inputs.heat.
Proof.
  do 5 eexists. repeat split; try (vm_compute; reflexivity);
    vm_compute; discriminate.
Qed.

(** ** Loops that fill column [ti + 1] from column [ti] *)

Section ColumnLoop.

(** The state of the loop, of which [buf] is the buffer. *)
Variable S : Type.
Variable buf : S -> buffer.

(** [step ti u_ti u_next]: how the body at index [ti] obtains the new column. *)
Variable step : nat -> vec -> vec -> Prop.
Variable body : nat -> S -> result S.

Hypothesis body_spec : forall ti s s1,
  body ti s = Ok s1 ->
  length (buf s1) = length (buf s)
  /\ (forall j, j <> (ti + 1)%nat -> nth_error (buf s1) j = nth_error (buf s) j)
  /\ exists u_ti u_next,
       nth_error (buf s) ti = Some u_ti /\ step ti u_ti u_next
       /\ nth_error (buf s1) (ti + 1) = Some u_next.

Lemma column_loop (m : nat) :
  forall (i : nat) (s s' : S),
    for_each (seq i m) body s = Ok s' ->
    length (buf s') = length (buf s)
    /\ (forall j, (j <= i)%nat -> nth_error (buf s') j = nth_error (buf s) j)
    /\ (forall ti, (i <= ti < i + m)%nat ->
         exists u_ti u_next,
           nth_error (buf s') ti = Some u_ti /\ step ti u_ti u_next
           /\ nth_error (buf s') (ti + 1) = Some u_next).
Proof.
  induction m as [|m IH]; intros i s s' H; simpl in H.
  - injection H as <-. repeat split; auto. intros ti Hti. lia.
  - inv_bind H. rename a into s1.
    destruct (body_spec _ _ _ Ha) as (Hl1 & Ho1 & u_ti & u_next & E1 & E2 & E3).
    destruct (IH _ _ _ H) as (Hl & Hlow & Hin).
    repeat split.
    + congruence.
    + intros j Hj. rewrite Hlow by lia. apply Ho1. lia.
    + intros ti Hti. destruct (Nat.eq_dec ti i) as [-> | Hne].
      * exists u_ti, u_next. repeat split; auto.
        -- rewrite Hlow by lia. rewrite Ho1 by lia. exact E1.
        -- rewrite Hlow by lia. exact E3.
      * apply Hin. lia.
Qed.

End ColumnLoop.

Lemma set_column_Ok (nx : nat) (u u1 : buffer) (j : nat) (v : vec) :
  set_column nx u j v = Ok u1 ->
  exists col, broadcast_to nx v = Ok col
    /\ length u1 = length u /\ nth_error u1 j = Some col
    /\ forall k, k <> j -> nth_error u1 k = nth_error u k.
Proof.
  unfold set_column. intro H. inv_bind H. exists a.
  apply set_item_Ok in H. tauto.
Qed.

(** ** The columns of [explicit_method] *)

Section Lines.

Variable step : step_function.
Variable f : vector_field.
Variable nx : nat.

(** The new column of the method of lines: the state the step function
    returns for step size 1, stored as a whole column. *)
Let lines_step (n : nat) (u_n u_next : vec) : Prop :=
  exists t_n t_next v,
    step f t_n u_n 1 = Ok (t_next, v) /\ broadcast_to nx v = Ok u_next.

Let lines_body (n : nat) (s : Q * buffer) : result (Q * buffer) :=
  let '(t_, u) := s in
  u_n <- item u n ;;
  '(t_, u_next) <- step f t_ u_n 1 ;;
  u <- set_column nx u (n + 1) u_next ;;
  Ok (t_, u).

Lemma lines_body_spec (n : nat) (s s1 : Q * buffer) :
  lines_body n s = Ok s1 ->
  length (snd s1) = length (snd s)
  /\ (forall j, j <> (n + 1)%nat -> nth_error (snd s1) j = nth_error (snd s) j)
  /\ exists u_n u_next,
       nth_error (snd s) n = Some u_n /\ lines_step n u_n u_next
       /\ nth_error (snd s1) (n + 1) = Some u_next.
Proof.
  unfold lines_body, lines_step. destruct s as [t_ u]. intro H.
  inv_bind H. rename a into u_n. inv_bind H. destruct a as [t_next v].
  inv_bind H. rename a into u1. injection H as <-.
  apply item_Ok in Ha.
  destruct (set_column_Ok _ _ _ _ _ Ha1) as (col & Hb & Hl & Hn & Ho).
  cbn [snd]. split; [exact Hl|]. split; [exact Ho|].
  exists u_n, col. split; [exact Ha|]. split; [|exact Hn].
  exists t_, t_next, v. auto.
Qed.

Lemma lines_loop_columns (t : vec) (t_0 t_end : Q) (u0 u : buffer) :
  lines_loop step f nx t t_0 u0 = Ok (t_end, u) ->
  length u = length u0
  /\ nth_error u 0 = nth_error u0 0
  /\ forall n, (n + 1 < length t)%nat ->
       exists u_n t_n t_next v u_next,
         item u n = Ok u_n
         /\ step f t_n u_n 1 = Ok (t_next, v)
         /\ broadcast_to nx v = Ok u_next
         /\ item u (n + 1) = Ok u_next.
Proof.
  unfold lines_loop. intro H.
  pose proof (column_loop (Q * buffer) snd _ _ lines_body_spec _ _ _ _ H)
    as (Hl & Hlow & Hin).
  cbn [snd] in *. split; [exact Hl|]. split; [apply Hlow; lia|].
  intros n Hn. destruct (Hin n) as (u_n & u_next & E1 & E2 & E3); [lia|].
  destruct E2 as (t_n & t_next & v & R1 & R2).
  exists u_n, t_n, t_next, v, u_next. rewrite !item_Ok. auto.
Qed.

End Lines.

(** Whatever [method] names, every column after the first is the whole state
    returned by [euler_step] from the column before it. *)
Lemma explicit_method_columns
    (euler_step rk4_step heun_step : step_function)
    (bvp : BVP) (t : vec) (method : string) (A : matrix) (b x_array : vec) (u : buffer) :
  construct_matrix bvp = (A, b, x_array) ->
  explicit_method euler_step rk4_step heun_step bvp t method = Ok u ->
  forall n, (n + 1 < length t)%nat ->
    exists u_n t_n t_next v u_next,
      item u n = Ok u_n
      /\ euler_step (PDE bvp A b) t_n u_n 1 = Ok (t_next, v)
      /\ broadcast_to (length x_array) v = Ok u_next
      /\ item u (n + 1) = Ok u_next.
Proof.
  intros Hcm H. unfold explicit_method in H.
  destruct (dict_get _ method); [|discriminate].
  rewrite Hcm in H.
  inv_bind H. inv_bind H. inv_bind H. inv_bind H. inv_bind H.
  destruct a3 as [t_end u']. injection H as <-.
  eapply lines_loop_columns. exact Ha3.
Qed.

(** A name outside [METHODS] is rejected before anything is computed. *)
Lemma explicit_method_rejects
    (euler_step rk4_step heun_step : step_function)
    (bvp : BVP) (t : vec) (method : string) :
  method <> "Euler"%string -> method <> "RK4"%string -> method <> "Heun"%string ->
  explicit_method euler_step rk4_step heun_step bvp t method
  = Raise (Exn ValueError "Invalid method: {}. Method must be one of {}."
             [FStr method; FStr "Euler"; FStr "RK4"; FStr "Heun"]).
Proof.
  intros H1 H2 H3. unfold explicit_method, METHODS. simpl.
  apply String.eqb_neq in H1, H2, H3. rewrite H1, H2, H3. reflexivity.
Qed.

(** ** Columns obtained from a linear solve *)



Lemma solve_1x1_exact : exact_solve Inputs.solve_1x1.
Proof.
  intros M r x H. unfold Inputs.solve_1x1 in H.
  destruct M as [|[|a [|a' row]] [|row' M]]; try discriminate.
  destruct r as [|x0 [|x1 r]]; try discriminate.
  destruct (Qeq_bool a 0) eqn:E; [discriminate|].
  injection H as <-. split; [reflexivity|].
  exists [a * (x0 / a) + 0]. split; [reflexivity|].
  constructor; [|constructor].
  apply Qeq_bool_neq in E. field. exact E.
Qed.

(** ** Arrays equal as numbers *)

Lemma veq_refl (a : vec) : veq a a.
Proof. induction a; constructor; [reflexivity | assumption]. Qed.

Lemma veq_sym (a b : vec) : veq a b -> veq b a.
Proof. induction 1; constructor; [symmetry; assumption | assumption]. Qed.

Lemma veq_trans (a b c : vec) : veq a b -> veq b c -> veq a c.
Proof.
  intro H. revert c. induction H as [|x y a b Hxy Hab IH]; intros c Hc.
  - inversion Hc. constructor.
  - inversion Hc as [|y' z b' c' Hyz Hbc]; subst. constructor.
    + rewrite Hxy. exact Hyz.
    + apply IH, Hbc.
Qed.

Lemma veq_length (a b : vec) : veq a b -> length a = length b.
Proof. apply Forall2_length. Qed.



Lemma veq_map (g g' : Q -> Q) (a a' : vec) :
  (forall x x', x == x' -> g x == g' x') -> veq a a' -> veq (map g a) (map g' a').
Proof. intros Hg H. induction H; simpl; constructor; auto. Qed.

Lemma veq_zip_plus (a a' b : vec) :
  veq a a' -> veq (zip_with Qplus a b) (zip_with Qplus a' b).
Proof.
  intro H. revert b. induction H as [|x x' a a' Hx Ha IH]; intros [|y b]; simpl;
    try constructor.
  - rewrite Hx. reflexivity.
  - apply IH.
Qed.

(** [u_ti + rhs] for two columns equal as numbers. *)
Lemma np_add_veq (a a' rhs r r' : vec) :
  veq a a' -> np_add a rhs = Ok r -> np_add a' rhs = Ok r' -> veq r r'.
Proof.
  intros H. pose proof (veq_length _ _ H) as Hl.
  unfold np_add, np_binop. rewrite <- Hl.
  destruct (length a =? length rhs)%nat.
  - intros E E'. injection E as <-. injection E' as <-. apply veq_zip_plus, H.
  - destruct H as [|x x' a a' Hx Ha].
    + destruct rhs as [|y [|y' rhs]]; try discriminate.
      intros E E'. injection E as <-. injection E' as <-. constructor.
    + destruct Ha as [|x1 x1' a a' Hx1 Ha].
      * intros E E'. injection E as <-. injection E' as <-.
        apply veq_map; [|apply veq_refl].
        intros z z' Hz. rewrite Hx, Hz. reflexivity.
      * destruct rhs as [|y [|y' rhs]]; try discriminate.
        intros E E'. injection E as <-. injection E' as <-.
        apply (veq_map (fun z => z + y) (fun z => z + y) (x :: x1 :: a) (x' :: x1' :: a')).
        -- intros z z' Hz. rewrite Hz. reflexivity.
        -- constructor; [exact Hx|]. constructor; assumption.
Qed.






Lemma nonsingular_1x1 (a : Q) : ~ a == 0 -> nonsingular [[a]].
Proof.
  intros Ha x x' image image' H H' Himage. unfold matvec in H, H'.
  simpl in H, H'.
  destruct x as [|x0 [|x1 x]]; try discriminate.
  destruct x' as [|x0' [|x1' x']]; try discriminate.
  injection H as <-. injection H' as <-.
  inversion Himage as [|? ? ? ? Heq _]; subst.
  unfold dot in Heq. simpl in Heq.
  constructor; [|constructor].
  assert (Hm : a * x0 == a * x0') by lra.
  apply Qmult_inj_l in Hm; assumption.
Qed.

(** ** [implicit_euler] and [imex_euler] *)

Section Implicit.

Variables np_linalg_solve sp_linalg_spsolve : matrix -> vec -> result vec.
Variable bvp : BVP.
Variable t : vec.
Variable lhs : matrix.
Variables rhs x_array : vec.

(** The new column of [implicit_euler]. *)
Let implicit_step (ti : nat) (u_ti u_next : vec) : Prop :=
  exists r solution,
    np_add u_ti rhs = Ok r
    /\ (if sparse bvp then sp_linalg_spsolve lhs r else np_linalg_solve lhs r) = Ok solution
    /\ broadcast_to (length x_array) solution = Ok u_next.

Let implicit_body (ti : nat) (u : buffer) : result buffer :=
  u_ti <- item u ti ;;
  r <- np_add u_ti rhs ;;
  if sparse bvp then
    u_next <- sp_linalg_spsolve lhs r ;;
    set_column (length x_array) u (ti + 1) u_next
  else
    u_next <- np_linalg_solve lhs r ;;
    set_column (length x_array) u (ti + 1) u_next.

Lemma implicit_body_spec (ti : nat) (u u1 : buffer) :
  implicit_body ti u = Ok u1 ->
  length u1 = length u
  /\ (forall j, j <> (ti + 1)%nat -> nth_error u1 j = nth_error u j)
  /\ exists u_ti u_next,
       nth_error u ti = Some u_ti /\ implicit_step ti u_ti u_next
       /\ nth_error u1 (ti + 1) = Some u_next.
Proof.
  unfold implicit_body, implicit_step. intro H.
  inv_bind H. rename a into u_ti. inv_bind H. rename a into r.
  apply item_Ok in Ha.
  destruct (sparse bvp); inv_bind H; rename a into solution;
    destruct (set_column_Ok _ _ _ _ _ H) as (col & Hb & Hl & Hn & Ho);
    (split; [exact Hl|]); (split; [exact Ho|]);
    exists u_ti, col; (split; [exact Ha|]); (split; [|exact Hn]);
    exists r, solution; auto.
Qed.






End Implicit.





(** * Further properties *)

(** ** What [solve_ode] returns *)

Lemma wbind_Ok {A B : Type} (m : W A) (k : A -> W B) (b : B) (log : list warning) :
  wbind m k = (Ok b, log) ->
  exists a log1 log2, m = (Ok a, log1) /\ k a = (Ok b, log2) /\ log = log1 ++ log2.
Proof.
  unfold wbind. destruct m as [[a| |] log1]; try discriminate.
  destruct (k a) as [r log2] eqn:E. intro H. injection H as -> <-.
  exists a, log1, log2. auto.
Qed.

Lemma dict_get_METHODS_names (euler_step rk4_step heun_step : step_function)
    (method : string) (m : pyvalue) :
  dict_get (IVP.METHODS euler_step rk4_step heun_step) method = Some m ->
  In method ["Euler"; "RK4"; "Heun"]%string.
Proof.
  unfold IVP.METHODS. simpl.
  destruct (String.eqb method "Euler") eqn:E1; [apply String.eqb_eq in E1; subst; simpl; auto|].
  destruct (String.eqb method "RK4") eqn:E2; [apply String.eqb_eq in E2; subst; simpl; auto|].
  destruct (String.eqb method "Heun") eqn:E3; [apply String.eqb_eq in E3; subst; simpl; auto|].
  discriminate.
Qed.

Lemma solve_ode_inversion
    (euler_step rk4_step heun_step : step_function) (fuel : nat)
    (fun_ : ode_function) (t0 : Q) (y0 : vec) (tf : option Q) (n_max : option Z)
    (method : string) (deltat_max : Q) (args : option (list Q))
    (t_array : list Q) (y_array : list vec) :
  value (solve_ode euler_step rk4_step heun_step fuel fun_ t0 y0 tf n_max
           method deltat_max args) = Ok (t_array, y_array) ->
  (exists array, bind_args fun_ args t0 y0 = Ok array /\ length array = length y0)
  /\ In method ["Euler"; "RK4"; "Heun"]%string
  /\ (tf <> None \/ n_max <> None)
  /\ match tf with Some tf' => t0 < tf' | None => True end
  /\ match n_max with Some n => (0 < n)%Z | None => True end
  /\ 0 < deltat_max
  /\ exists m,
       dict_get (IVP.METHODS euler_step rk4_step heun_step) method = Some m
       /\ solve_ode_loop fuel m (bind_args fun_ args) tf n_max t0 y0 deltat_max 0%Z
            [t0] [y0] = Ok (t_array, y_array).
Proof.
  unfold value, solve_ode. intro H.
  destruct (bind_args fun_ args t0 y0) as [array| |] eqn:Hfun;
    cbn [try_except wlift wbind fst] in H; try discriminate.
  destruct (length y0 =? length array)%nat eqn:Hlen; cbn [negb] in H;
    [|discriminate].
  apply Nat.eqb_eq in Hlen.
  destruct (dict_get (IVP.METHODS euler_step rk4_step heun_step) method) as [m|] eqn:Hm;
    [|discriminate].
  destruct (match tf, n_max with None, None => true | _, _ => false end) eqn:Hb;
    [discriminate|].
  destruct (check_tf rk4_step tf t0 m) as [[[]| |] log] eqn:Hc;
    cbn [wbind] in H; try discriminate.
  destruct (match n_max with Some n => (n <=? 0)%Z | None => false end) eqn:Hn;
    [discriminate|].
  destruct (Qleb deltat_max 0) eqn:Hd; [discriminate|].
  unfold wlift in H. cbn [fst] in H.
  split; [exists array; auto|].
  split; [eapply dict_get_METHODS_names; eassumption|].
  split.
  { destruct tf, n_max; try discriminate Hb; [left | left | right]; discriminate. }
  split.
  { destruct tf as [tf'|]; [|exact I]. unfold check_tf in Hc.
    destruct (Qleb tf' t0) eqn:E; [discriminate|]. apply Qleb_false, E. }
  split.
  { destruct n_max as [n|]; [|exact I]. apply Z.leb_gt, Hn. }
  split; [apply Qleb_false, Hd|].
  exists m. split; [reflexivity | exact H].
Qed.



(** What the loop appends: as many states as times, and, with [n_max] given,
    no more steps than are left; exactly those left when there is no [tf]. *)
Lemma loop_appends (m : pyvalue) (f : vector_field) (tf : option Q) (n_max : option Z) :
  forall (fuel : nat) t y dt i ts ys ts' ys',
    solve_ode_loop fuel m f tf n_max t y dt i ts ys = Ok (ts', ys') ->
    exists ta ya,
      ts' = ts ++ ta /\ ys' = ys ++ ya /\ length ya = length ta
      /\ forall n, n_max = Some n -> (i <= n)%Z ->
           (i + Z.of_nat (length ta) <= n)%Z
           /\ (tf = None -> (i + Z.of_nat (length ta))%Z = n).
Proof.
  induction fuel as [|fuel IH]; intros t y dt i ts ys ts' ys' H; [discriminate|].
  rewrite LoopFacts.loop_step in H.
  destruct (loop_test tf n_max t i) eqn:Htest.
  - inv_bind H. destruct a as [t1 y1].
    destruct (IH _ _ _ _ _ _ _ _ H) as (ta & ya & -> & -> & Hl & Hn).
    exists (t1 :: ta), (y1 :: ya). rewrite <- !app_assoc. simpl.
    repeat split; auto.
    + assert (Hi : (i < n)%Z).
      { unfold loop_test in Htest. rewrite H0 in Htest.
        apply andb_true_iff in Htest. destruct Htest as [_ Ht]. apply Z.ltb_lt, Ht. }
      destruct (Hn n H0) as [Hle _]; lia.
    + intro Htf.
      assert (Hi : (i < n)%Z).
      { unfold loop_test in Htest. rewrite H0 in Htest.
        apply andb_true_iff in Htest. destruct Htest as [_ Ht]. apply Z.ltb_lt, Ht. }
      destruct (Hn n H0) as [_ Heq]; [lia|]. specialize (Heq Htf). lia.
  - injection H as <- <-. exists [], []. rewrite !app_nil_r. simpl.
    repeat split; auto; try lia.
    intro Htf. unfold loop_test in Htest. rewrite Htf, H in Htest. simpl in Htest.
    apply Z.ltb_ge in Htest. lia.
Qed.

(** The arrays [solve_ode] returns are aligned and begin with [t0] and [y0];
    with [n_max] given the steps taken are at most [n_max], and exactly
    [n_max] when no [tf] is given.  No assumption on the step function
    enters. *)
Theorem solve_ode_trajectory_shape
    (euler_step rk4_step heun_step : step_function) (fuel : nat)
    (fun_ : ode_function) (t0 : Q) (y0 : vec) (tf : option Q) (n_max : option Z)
    (method : string) (deltat_max : Q) (args : option (list Q))
    (t_array : list Q) (y_array : list vec) :
  value (solve_ode euler_step rk4_step heun_step fuel fun_ t0 y0 tf n_max
           method deltat_max args) = Ok (t_array, y_array) ->
  exists ts ys,
    t_array = t0 :: ts /\ y_array = y0 :: ys /\ length ys = length ts
    /\ forall n, n_max = Some n ->
         (Z.of_nat (length ts) <= n)%Z
         /\ (tf = None -> Z.of_nat (length ts) = n).
Proof.
  intro H. apply solve_ode_inversion in H.
  destruct H as (_ & _ & _ & _ & Hn & _ & m & _ & Hloop).
  destruct (loop_appends _ _ _ _ _ _ _ _ _ _ _ _ _ Hloop) as (ta & ya & -> & -> & Hl & Hs).
  exists ta, ya. repeat split; auto.
  - destruct (Hs n H) as [Hle _]; [subst n_max; lia | lia].
  - intro Htf. destruct (Hs n H) as [_ Heq]; [subst n_max; lia|]. specialize (Heq Htf). lia.
Qed.

(** Three steps of the Heun method for [f(t, y) = -y]. *)
Lemma solve_ode_trajectory_shape_witness :
  exists t_array y_array ts ys,
    value (Inputs.solve_ode 5 Inputs.decay 0 [1] None (Some 3%Z) "Heun"
             (1 # 100) None) = Ok (t_array, y_array)
    /\ t_array = 0 :: ts /\ y_array = [1] :: ys /\ length ys = length ts
    /\ forall n, Some 3%Z = Some n ->
         (Z.of_nat (length ts) <= n)%Z
         /\ (@None Q = None -> Z.of_nat (length ts) = n).
Proof.
  do 2 eexists.
  destruct (solve_ode_trajectory_shape OdeSolvers.euler_step OdeSolvers.rk4_step
              OdeSolvers.heun_step 5 Inputs.decay 0 [1] None (Some 3%Z) "Heun"
              (1 # 100) None _ _ eq_refl) as (ts & ys & H).
  exists ts, ys. split; [reflexivity | exact H].
Defined.

(** ** The times of a trajectory *)

Section Times.

Variable name : string.
Variable step : step_function.
Variable f : vector_field.
Hypothesis contract : step_contract f step.

(** Without [tf] the step size never changes: the times appended are
    [t + deltat_max], [t + 2 * deltat_max], ... *)
Lemma loop_uniform (n : Z) :
  forall (k fuel : nat) t y dt i ts ys,
    (n - i)%Z = Z.of_nat k -> (k < fuel)%nat ->
    exists ta ya,
      solve_ode_loop fuel (PyFunction name step) f None (Some n) t y dt i ts ys
      = Ok (ts ++ ta, ys ++ ya)
      /\ length ta = k
      /\ forall j x, nth_error ta j = Some x -> x == t + inject_Z (Z.of_nat (S j)) * dt.
Proof.
  induction k as [|k IH]; intros fuel t y dt i ts ys Hk Hf.
  - destruct fuel as [|fuel]; [lia|]. rewrite LoopFacts.loop_step.
    replace (loop_test None (Some n) t i) with false
      by (unfold loop_test; simpl; symmetry; apply Z.ltb_ge; lia).
    exists [], []. rewrite !app_nil_r. repeat split; auto.
    intros [|j] x; discriminate.
  - destruct fuel as [|fuel]; [lia|]. rewrite LoopFacts.loop_step.
    replace (loop_test None (Some n) t i) with true
      by (unfold loop_test; simpl; symmetry; apply Z.ltb_lt; lia).
    destruct (contract t y dt) as [y' Hs]. unfold call_method. rewrite Hs. cbn [bind clamp].
    destruct (IH fuel (t + dt) y' dt (i + 1)%Z (ts ++ [t + dt]) (ys ++ [y']))
      as (ta & ya & -> & Hl & Hx); [lia | lia |].
    exists ((t + dt) :: ta), (y' :: ya). rewrite <- !app_assoc. simpl.
    repeat split; auto.
    intros [|j] x Hj; simpl in Hj.
    + injection Hj as <-. change (inject_Z (Z.of_nat 1)) with 1. ring.
    + rewrite (Hx j x Hj). rewrite (LoopFacts.inject_nat_succ (S j)). ring.
Qed.

(** With [tf] and no [n_max], from a time before [tf] and a positive step
    size: the times appended ascend, all but the last are before [tf], and
    the last is not. *)
Lemma loop_tf_times (tf : Q) :
  forall (k fuel : nat) t y dt i ts ys,
    0 < dt -> t < tf -> tf - t <= inject_Z (Z.of_nat k) * dt -> (k < fuel)%nat ->
    exists ta ya,
      solve_ode_loop fuel (PyFunction name step) f (Some tf) None t y dt i ts ys
      = Ok (ts ++ ta, ys ++ ya)
      /\ ascending t ta /\ stops_at tf ta.
Proof.
  induction k as [|k IH]; intros fuel t y dt i ts ys Hdt Ht Hk Hf.
  - change (inject_Z (Z.of_nat 0)) with 0 in Hk. lra.
  - destruct fuel as [|fuel]; [lia|]. rewrite LoopFacts.loop_step.
    replace (loop_test (Some tf) None t i) with true
      by (unfold loop_test; symmetry; rewrite andb_true_r; apply Qltb_true; exact Ht).
    destruct (contract t y dt) as [y' Hs]. unfold call_method. rewrite Hs. cbn [bind].
    rewrite LoopFacts.inject_nat_succ in Hk.
    destruct (Qlt_le_dec (t + dt) tf) as [Hlt | Hge].
    + assert (Hk1 : (1 <= k)%nat).
      { destruct k; [|lia]. change (inject_Z (Z.of_nat 0)) with 0 in Hk. lra. }
      assert (HK : 1 <= inject_Z (Z.of_nat k)).
      { change 1 with (inject_Z 1). rewrite <- Zle_Qle. lia. }
      assert (Hd : 0 < clamp (Some tf) (t + dt) dt
                   /\ tf - (t + dt) <= inject_Z (Z.of_nat k) * clamp (Some tf) (t + dt) dt).
      { unfold clamp. destruct (Qltb tf (t + dt + dt)) eqn:Hc.
        - apply Qltb_true in Hc. split; [lra|].
          assert (0 <= (inject_Z (Z.of_nat k) - 1) * (tf - (t + dt)))
            by (apply Qmult_le_0_compat; lra).
          lra.
        - apply Qltb_false in Hc. split; lra. }
      destruct Hd as [Hd1 Hd2].
      destruct (IH fuel (t + dt) y' (clamp (Some tf) (t + dt) dt) (i + 1)%Z
                  (ts ++ [t + dt]) (ys ++ [y'])) as (ta & ya & -> & Ha & Hstop);
        [exact Hd1 | exact Hlt | exact Hd2 | lia |].
      exists ((t + dt) :: ta), (y' :: ya). rewrite <- !app_assoc. simpl.
      split; [reflexivity|]. split; [split; [lra | exact Ha]|].
      destruct ta as [|x ta]; [destruct Hstop|]. split; [exact Hlt | exact Hstop].
    + destruct fuel as [|fuel]; [lia|]. rewrite LoopFacts.loop_step.
      replace (loop_test (Some tf) None (t + dt) (i + 1)) with false
        by (unfold loop_test; symmetry; rewrite andb_true_r; apply Qltb_false; exact Hge).
      exists [t + dt], [y']. simpl. repeat split; auto. lra.
Qed.

End Times.

(** With [n_max] and no [tf], under the step-function contract, a call that
    passes the tests returns a uniform grid: [n_max] steps, the [j]-th time
    after [t0] being [t0 + (j + 1) * deltat_max]. *)
Theorem solve_ode_uniform_grid
    (euler_step rk4_step heun_step : step_function) (fuel : nat)
    (fun_ : ode_function) (args : option (list Q)) (t0 : Q) (y0 array : vec)
    (n_max : Z) (method name : string) (step : step_function) (deltat_max : Q) :
  bind_args fun_ args t0 y0 = Ok array -> length array = length y0 ->
  dict_get (IVP.METHODS euler_step rk4_step heun_step) method = Some (PyFunction name step) ->
  step_contract (bind_args fun_ args) step ->
  (0 < n_max)%Z -> 0 < deltat_max -> (Z.to_nat n_max < fuel)%nat ->
  exists ts ys,
    solve_ode euler_step rk4_step heun_step fuel fun_ t0 y0 None (Some n_max)
      method deltat_max args = (Ok (t0 :: ts, y0 :: ys), [])
    /\ length ts = Z.to_nat n_max
    /\ forall j x, nth_error ts j = Some x ->
         x == t0 + inject_Z (Z.of_nat (S j)) * deltat_max.
Proof.
  intros Hfun Hlen Hm Hc Hn Hdt Hfuel.
  rewrite (solve_ode_valid euler_step rk4_step heun_step fuel fun_ args t0 y0
             None (Some n_max) method deltat_max array name step)
    by (auto; right; discriminate).
  destruct (loop_uniform name step _ Hc n_max (Z.to_nat n_max) fuel
              t0 y0 deltat_max 0%Z [t0] [y0]) as (ta & ya & -> & Hl & Hx);
    [lia | exact Hfuel |].
  exists ta, ya. auto.
Qed.

(** Four Euler steps of size [1/100] for [f(t, y) = -y]. *)
Lemma solve_ode_uniform_grid_witness :
  exists ts ys,
    Inputs.solve_ode 5 Inputs.decay 0 [1] None (Some 4%Z) "Euler" (1 # 100) None
    = (Ok (0 :: ts, [1] :: ys), [])
    /\ length ts = Z.to_nat 4
    /\ forall j x, nth_error ts j = Some x ->
         x == 0 + inject_Z (Z.of_nat (S j)) * (1 # 100).
Proof.
  apply (solve_ode_uniform_grid OdeSolvers.euler_step OdeSolvers.rk4_step
           OdeSolvers.heun_step 5 Inputs.decay None 0 [1] [-1] 4 "Euler" "euler_step"
           OdeSolvers.euler_step (1 # 100)).
  - reflexivity.
  - reflexivity.
  - reflexivity.
  - apply StepFacts.euler_step_contract, StepFacts.decay_shape_preserving.
  - reflexivity.
  - reflexivity.
  - vm_compute. lia.
Defined.

(** With [tf] and no [n_max], under the step-function contract, the times a
    validated call returns ascend strictly from [t0]; every time but the last
    is before [tf] and the last is at or after [tf]. *)
Theorem solve_ode_times_ascend
    (euler_step rk4_step heun_step : step_function) (fuel : nat)
    (fun_ : ode_function) (args : option (list Q)) (t0 : Q) (y0 array : vec)
    (tf : Q) (method name : string) (step : step_function) (deltat_max : Q) :
  bind_args fun_ args t0 y0 = Ok array -> length array = length y0 ->
  dict_get (IVP.METHODS euler_step rk4_step heun_step) method = Some (PyFunction name step) ->
  step_contract (bind_args fun_ args) step ->
  t0 < tf -> 0 < deltat_max ->
  (Z.to_nat (Qceiling ((tf - t0) / deltat_max)) < fuel)%nat ->
  exists ts ys,
    solve_ode euler_step rk4_step heun_step fuel fun_ t0 y0 (Some tf) None
      method deltat_max args = (Ok (t0 :: ts, y0 :: ys), [])
    /\ ascending t0 ts /\ stops_at tf ts.
Proof.
  intros Hfun Hlen Hm Hc Ht Hdt Hfuel.
  rewrite (solve_ode_valid euler_step rk4_step heun_step fuel fun_ args t0 y0
             (Some tf) None method deltat_max array name step)
    by (auto; left; discriminate).
  destruct (loop_tf_times name step _ Hc tf
              (Z.to_nat (Qceiling ((tf - t0) / deltat_max))) fuel
              t0 y0 deltat_max 0%Z [t0] [y0]) as (ta & ya & -> & Ha & Hs);
    auto using ceiling_steps.
  exists ta, ya. auto.
Qed.

(** The horizon [tf = 1/40] with Euler steps of size [1/100]. *)
Lemma solve_ode_times_ascend_witness :
  exists ts ys,
    Inputs.solve_ode 5 Inputs.decay 0 [1] (Some (1 # 40)) None "Euler" (1 # 100) None
    = (Ok (0 :: ts, [1] :: ys), [])
    /\ ascending 0 ts /\ stops_at (1 # 40) ts.
Proof.
  apply (solve_ode_times_ascend OdeSolvers.euler_step OdeSolvers.rk4_step
           OdeSolvers.heun_step 5 Inputs.decay None 0 [1] [-1] (1 # 40) "Euler"
           "euler_step" OdeSolvers.euler_step (1 # 100)).
  - reflexivity.
  - reflexivity.
  - reflexivity.
  - apply StepFacts.euler_step_contract, StepFacts.decay_shape_preserving.
  - reflexivity.
  - reflexivity.
  - vm_compute. lia.
Defined.

(** ** The shooting solver and its default IVP capability *)






(** A guess whose state part the right-hand side does not accept is reported
    as an input error whatever went wrong underneath, before the root-finder
    or the IVP capability is used: when the right-hand side raises at
    [(0, U0[:-1])] or returns an array of another shape.  When the probe
    passes and the phase function raises there, the error is the one on the
    phase function. *)
Theorem shooting_rejects_malformed
    (euler_step rk4_step heun_step : step_function) (fuel : nat) (U0 : vec)
    (ode : ode_function) (phase_function : phase_function_type)
    (ode_solver : ode_solver_type) (root_solver : root_solver_type)
    (atol : Q) (function_args : option (list Q)) :
  ((exists e, bind_args ode function_args 0 (removelast U0) = Raise e)
   \/ (exists array, bind_args ode function_args 0 (removelast U0) = Ok array
                     /\ length array <> length (removelast U0)) ->
   shooting euler_step rk4_step heun_step fuel U0 ode phase_function
     ode_solver root_solver atol function_args
   = Raise (Exn InputError U0_message [FVec U0]))
  /\
  (forall trajectory e,
      value (solve_ode euler_step rk4_step heun_step fuel ode 0 (removelast U0)
               None (Some 1%Z) default_method default_deltat_max function_args)
        = Ok trajectory ->
      bind_args phase_function function_args 0 (removelast U0) = Raise e ->
      shooting euler_step rk4_step heun_step fuel U0 ode phase_function
        ode_solver root_solver atol function_args
      = Raise (Exn FunctionError phase_message [FVec U0])).
Proof.
  split.
  - intros [[e He] | (array & Harr & Hlen)]; unfold shooting, solve_ode, value.
    + rewrite He. reflexivity.
    + rewrite Harr. cbn [try_except wlift wbind].
      apply Nat.eqb_neq in Hlen. rewrite Nat.eqb_sym, Hlen. reflexivity.
  - intros trajectory e Hprobe Hphase. unfold shooting.
    rewrite Hprobe, Hphase. reflexivity.
Qed.

(** A right-hand side that returns one entry too many, and a phase function
    that reads an entry the state does not have. *)
Lemma shooting_rejects_malformed_witness :
  Inputs.shooting 3 [1; 1 # 100] Inputs.longer Inputs.decay_phase
    Inputs.ode_solver Inputs.root_at_guess (1 # 100000000) None
  = Raise (Exn InputError U0_message [FVec [1; 1 # 100]])
  /\ Inputs.shooting 3 [1 # 100] Inputs.decay Inputs.decay_phase
       Inputs.ode_solver Inputs.root_at_guess (1 # 100000000) None
     = Raise (Exn FunctionError phase_message [FVec [1 # 100]]).
Proof.
  split.
  - apply (proj1 (shooting_rejects_malformed OdeSolvers.euler_step OdeSolvers.rk4_step
                    OdeSolvers.heun_step 3 [1; 1 # 100] Inputs.longer Inputs.decay_phase
                    Inputs.ode_solver Inputs.root_at_guess (1 # 100000000) None)).
    right. exists [0; 1]. split; [reflexivity | discriminate].
  - eapply (proj2 (shooting_rejects_malformed OdeSolvers.euler_step OdeSolvers.rk4_step
                     OdeSolvers.heun_step 3 [1 # 100] Inputs.decay Inputs.decay_phase
                     Inputs.ode_solver Inputs.root_at_guess (1 # 100000000) None)).
    + vm_compute. reflexivity.
    + vm_compute. reflexivity.
Defined.

(** ** The buffers the PDE steppers return *)

Lemma set_column_keeps_shape (nx nt : nat) (u u' : buffer) (j : nat) (v : vec) :
  shaped nx nt u -> set_column nx u j v = Ok u' -> shaped nx nt u'.
Proof.
  intros Hs H. unfold set_column in H. inv_bind H.
  eapply shaped_set_item; eauto using broadcast_to_length.
Qed.

(** A loop that returns has kept what its body keeps. *)
Lemma for_each_preserves {S : Type} (P : S -> Prop) (l : list nat)
    (body : nat -> S -> result S) :
  (forall i s s', P s -> body i s = Ok s' -> P s') ->
  forall s s', P s -> for_each l body s = Ok s' -> P s'.
Proof.
  intro Hbody. induction l as [|i l IH]; intros s s' Hs H; simpl in H.
  - injection H as <-. exact Hs.
  - inv_bind H. eapply IH; [|exact H]. eapply Hbody; eassumption.
Qed.

Lemma sequence_map_inv {A B : Type} (g : A -> result B) (l : list A) (l' : list B) :
  sequence (map g l) = Ok l' -> Forall2 (fun x y => g x = Ok y) l l'.
Proof.
  revert l'. induction l as [|x l IH]; intros l' H; simpl in H.
  - injection H as <-. constructor.
  - inv_bind H. inv_bind H. injection H as <-. constructor; auto.
Qed.

Lemma set_first_row_keeps_shape (nx nt : nat) (u u' : buffer) (a : Q) :
  shaped nx nt u -> set_first_row u a = Ok u' -> shaped nx nt u'.
Proof.
  intros Hs H. apply sequence_map_inv in H.
  eapply shaped_Forall2; [exact Hs | | exact H].
  intros c c' Hc. apply set_item_Ok in Hc. tauto.
Qed.

Lemma set_last_row_keeps_shape (nx nt : nat) (u u' : buffer) (a : Q) :
  shaped nx nt u -> set_last_row u a = Ok u' -> shaped nx nt u'.
Proof.
  intros Hs H. apply sequence_map_inv in H.
  eapply shaped_Forall2; [exact Hs | | exact H].
  intros c c' Hc. apply set_last_item_Ok in Hc. tauto.
Qed.

(** Every stepper that returns, returns a buffer with one row for each grid
    point and one column for each time: [explicit_method], [implicit_euler],
    [crank_nicolson] and [imex_euler]. *)
Theorem steppers_return_full_buffer
    (euler_step rk4_step heun_step : step_function)
    (np_linalg_solve sp_linalg_spsolve : matrix -> vec -> result vec)
    (bvp : BVP) (t : vec) (A : matrix) (b x_array : vec) :
  construct_matrix bvp = (A, b, x_array) ->
  (forall method u,
      explicit_method euler_step rk4_step heun_step bvp t method = Ok u ->
      shaped (length x_array) (length t) u)
  /\ (forall u,
        implicit_euler np_linalg_solve sp_linalg_spsolve bvp t = Ok u ->
        shaped (length x_array) (length t) u)
  /\ (forall u,
        crank_nicolson np_linalg_solve sp_linalg_spsolve bvp t = Ok u ->
        shaped (length x_array) (length t) u)
  /\ (forall u,
        imex_euler np_linalg_solve bvp t = Ok u ->
        shaped (length x_array) (length t) u).
Proof.
  intro Hcm. split; [|split; [|split]].
  - intros method u H. unfold explicit_method in H.
    destruct (dict_get _ method); [|discriminate]. rewrite Hcm in H.
    inv_bind H. inv_bind H. inv_bind H. inv_bind H. inv_bind H.
    destruct a3 as [t_end u']. injection H as <-.
    pose proof (zeros_shaped (length x_array) (length t)) as Hs.
    eapply set_column_keeps_shape in Hs; [|exact Ha0].
    eapply set_first_row_keeps_shape in Hs; [|exact Ha1].
    eapply set_last_row_keeps_shape in Hs; [|exact Ha2].
    unfold lines_loop in Ha3.
    apply (for_each_preserves
             (fun s : Q * buffer => shaped (length x_array) (length t) (snd s))
             _ _) with (s := (a, a2)) (s' := (t_end, u')) in Ha3; [exact Ha3 | | exact Hs].
    intros n [t_ u0] [t_' u1] Hu0 Hbody. cbn [snd] in *.
    inv_bind Hbody. inv_bind Hbody. destruct a4 as [t_next v].
    inv_bind Hbody. injection Hbody as _ <-.
    eapply set_column_keeps_shape; eassumption.
  - intros u H. unfold implicit_euler in H. rewrite Hcm in H.
    inv_bind H. inv_bind H. inv_bind H.
    pose proof (zeros_shaped (length x_array) (length t)) as Hs.
    eapply set_column_keeps_shape in Hs; [|exact Ha1].
    eapply (for_each_preserves (shaped (length x_array) (length t)));
      [| exact Hs | exact H].
    intros ti u0 u1 Hu0 Hbody. inv_bind Hbody. inv_bind Hbody.
    destruct (sparse bvp); inv_bind Hbody; eapply set_column_keeps_shape; eassumption.
  - intros u H. unfold crank_nicolson in H. rewrite Hcm in H.
    inv_bind H. inv_bind H. inv_bind H. inv_bind H.
    pose proof (zeros_shaped (length x_array) (length t)) as Hs.
    eapply set_column_keeps_shape in Hs; [|exact Ha2].
    eapply (for_each_preserves (shaped (length x_array) (length t)));
      [| exact Hs | exact H].
    intros ti u0 u1 Hu0 Hbody. inv_bind Hbody. inv_bind Hbody. inv_bind Hbody.
    destruct (sparse bvp); inv_bind Hbody; eapply set_column_keeps_shape; eassumption.
  - intros u H. unfold imex_euler in H. rewrite Hcm in H.
    inv_bind H. inv_bind H. inv_bind H.
    pose proof (zeros_shaped (length x_array) (length t)) as Hs.
    eapply set_column_keeps_shape in Hs; [|exact Ha1].
    eapply (for_each_preserves (shaped (length x_array) (length t)));
      [| exact Hs | exact H].
    intros ti u0 u1 Hu0 Hbody. inv_bind Hbody. inv_bind Hbody. inv_bind Hbody.
    inv_bind Hbody.
    match goal with
    | Hset : set_column _ u0 _ _ = Ok ?u2 |- _ =>
        assert (Hu2 : shaped (length x_array) (length t) u2)
          by (eapply set_column_keeps_shape; eassumption)
    end.
    destruct (q_fun bvp) as [q|].
    + inv_bind Hbody. inv_bind Hbody. inv_bind Hbody. inv_bind Hbody.
      exact (set_column_keeps_shape _ _ _ _ _ _ Hu2 Hbody).
    + injection Hbody as <-. exact Hu2.
Qed.

(** The problem on one grid point over the grid [[0; 1; 2]]. *)
Lemma steppers_return_full_buffer_witness :
  exists u1 u2 u3 u4,
    Inputs.explicit_method Inputs.point [0; 1; 2] "Heun" = Ok u1
    /\ implicit_euler Inputs.solve_1x1 Inputs.solve_1x1 Inputs.point [0; 1; 2] = Ok u2
    /\ crank_nicolson Inputs.solve_1x1 Inputs.solve_1x1 Inputs.point [0; 1; 2] = Ok u3
    /\ imex_euler Inputs.solve_1x1 Inputs.point [0; 1; 2] = Ok u4
    /\ shaped 1 3 u1 /\ shaped 1 3 u2 /\ shaped 1 3 u3 /\ shaped 1 3 u4.
Proof.
  destruct (steppers_return_full_buffer OdeSolvers.euler_step OdeSolvers.rk4_step
              OdeSolvers.heun_step Inputs.solve_1x1 Inputs.solve_1x1 Inputs.point
              [0; 1; 2] [[-2]] [3] [1 # 2] eq_refl) as (H1 & H2 & H3 & H4).
  do 4 eexists.
  split; [vm_compute; reflexivity|]. split; [vm_compute; reflexivity|].
  split; [vm_compute; reflexivity|]. split; [vm_compute; reflexivity|].
  split; [apply (H1 "Heun"%string); vm_compute; reflexivity|].
  split; [apply H2; vm_compute; reflexivity|].
  split; [apply H3; vm_compute; reflexivity|].
  apply H4; vm_compute; reflexivity.
Defined.

(** ** [explicit_method]: the first column and the reaction term *)

(** In the buffer [explicit_method] returns, column 0 ends with [beta]; with
    two grid points or more it begins with [alpha] and holds the initial
    condition in between; with a single grid point its only entry is [beta],
    the later of the two assignments. *)
Theorem explicit_method_initial_column
    (euler_step rk4_step heun_step : step_function)
    (bvp : BVP) (t : vec) (method : string) (A : matrix) (b x_array : vec) (u : buffer) :
  construct_matrix bvp = (A, b, x_array) ->
  explicit_method euler_step rk4_step heun_step bvp t method = Ok u ->
  exists t_0 initial u_0,
    item t 0 = Ok t_0
    /\ broadcast_to (length x_array) (f_fun bvp x_array t_0) = Ok initial
    /\ item u 0 = Ok u_0
    /\ length u_0 = length x_array
    /\ last_item u_0 = Ok (beta bvp)
    /\ ((2 <= length x_array)%nat -> item u_0 0 = Ok (alpha bvp))
    /\ (length x_array = 1%nat -> u_0 = [beta bvp])
    /\ forall i, (0 < i)%nat -> (i + 1 < length x_array)%nat ->
         nth_error u_0 i = nth_error initial i.
Proof.
  intros Hcm H. unfold explicit_method in H.
  destruct (dict_get _ method); [|discriminate]. rewrite Hcm in H.
  inv_bind H. rename a into t_0. inv_bind H. rename a into u1.
  inv_bind H. rename a into u2. inv_bind H. rename a into u3.
  inv_bind H. destruct a as [t_end u']. injection H as <-.
  destruct (set_column_Ok _ _ _ _ _ Ha0) as (initial & Hb & _ & Hn1 & _).
  apply sequence_map_inv in Ha1, Ha2.
  destruct (lines_loop_columns _ _ _ _ _ _ _ _ Ha3) as (_ & Hcol0 & _).
  destruct u1 as [|c1 u1]; [discriminate|]. simpl in Hn1. injection Hn1 as ->.
  inversion Ha1 as [|? c2 ? u2' Hc2 _]; subst.
  inversion Ha2 as [|? c3 ? u3' Hc3 _]; subst.
  simpl in Hcol0.
  pose proof (broadcast_to_length _ _ _ Hb) as Hlen.
  destruct (set_item_Ok _ _ _ _ Hc2) as (_ & Hl2 & Hfirst & Hrest2).
  destruct (set_last_item_Ok _ _ _ Hc3) as (Hl3 & Hlast & Hrest3).
  exists t_0, initial, c3. split; [exact Ha|]. split; [exact Hb|].
  split; [apply item_Ok; exact Hcol0|].
  split; [congruence|].
  assert (Hlast' : last_item c3 = Ok (beta bvp)).
  { destruct c2 as [|z c2] using rev_ind; [discriminate|].
    rewrite set_last_item_app in Hc3. injection Hc3 as <-. apply last_item_app. }
  split; [exact Hlast'|].
  split; [|split].
  - intro Hnx. apply item_Ok. rewrite Hrest3 by lia. exact Hfirst.
  - intro Hnx. destruct c3 as [|z [|z' c3]]; simpl in Hl3; try lia.
    unfold last_item in Hlast'. simpl in Hlast'. congruence.
  - intros i Hi1 Hi2. rewrite Hrest3 by lia. apply Hrest2. lia.
Qed.

(** The three-point diffusion problem and the problem on one grid point. *)
Lemma explicit_method_initial_column_witness :
  (exists u u_0,
      Inputs.explicit_method Inputs.heat [0; 1] "RK4" = Ok u
      /\ item u 0 = Ok u_0
      /\ last_item u_0 = Ok (beta Inputs.heat)
      /\ item u_0 0 = Ok (alpha Inputs.heat)
      /\ nth_error u_0 1 = Some (1 # 2))
  /\ (exists u,
        Inputs.explicit_method Inputs.point [0; 1] "RK4" = Ok u
        /\ item u 0 = Ok [beta Inputs.point]).
Proof.
  split.
  - eexists.
    destruct (explicit_method_initial_column OdeSolvers.euler_step OdeSolvers.rk4_step
                OdeSolvers.heun_step Inputs.heat [0; 1] "RK4"
                [[-2; 1; 0]; [1; -2; 1]; [0; 1; -2]] [1; 0; 2] [0; 1 # 2; 1] _
                eq_refl eq_refl)
      as (t_0 & initial & u_0 & H1 & H2 & H3 & H4 & H5 & H6 & H7 & H8).
    exists u_0. split; [reflexivity|]. split; [exact H3|]. split; [exact H5|].
    split; [apply H6; simpl; lia|].
    rewrite (H8 1%nat) by (simpl; lia).
    injection H1 as <-. injection H2 as <-. reflexivity.
  - eexists.
    destruct (explicit_method_initial_column OdeSolvers.euler_step OdeSolvers.rk4_step
                OdeSolvers.heun_step Inputs.point [0; 1] "RK4"
                [[-2]] [3] [1 # 2] _ eq_refl eq_refl)
      as (t_0 & initial & u_0 & H1 & H2 & H3 & H4 & H5 & H6 & H7 & H8).
    split; [reflexivity|]. rewrite H3, (H7 eq_refl). reflexivity.
Defined.

Lemma lines_loop_first_raises (step : step_function) (f : vector_field) (nx : nat)
    (t_0 t_1 : Q) (t : vec) (u : buffer) (c : vec) (e : exn) :
  item u 0 = Ok c -> step f t_0 c 1 = Raise e ->
  lines_loop step f nx (t_0 :: t_1 :: t) t_0 u = Raise e.
Proof.
  intros Hc Hs. unfold lines_loop.
  change (length (t_0 :: t_1 :: t) - 1)%nat with (S (length t)).
  cbn [seq for_each]. rewrite Hc. cbn [bind]. rewrite Hs. reflexivity.
Qed.

(** With a reaction term, [explicit_method] cannot step: the right-hand side
    it defines takes five parameters and the step function calls it with two.
    For every recognised method, a time grid with two points or more and a
    set-up that passes, the call raises the [TypeError] of that call. *)
Theorem explicit_method_reaction_term_raises
    (euler_step rk4_step heun_step : step_function)
    (bvp : BVP) (t_0 t_1 : Q) (t : vec) (method : string)
    (A : matrix) (b x_array initial : vec) (q : vec -> Q -> vec -> vec) :
  calls_field euler_step ->
  construct_matrix bvp = (A, b, x_array) ->
  q_fun bvp = Some q ->
  In method ["Euler"; "RK4"; "Heun"]%string ->
  x_array <> [] ->
  broadcast_to (length x_array) (f_fun bvp x_array t_0) = Ok initial ->
  explicit_method euler_step rk4_step heun_step bvp (t_0 :: t_1 :: t) method
  = Raise (Exn TypeError
             "PDE() missing 3 required positional arguments: 'D', 'A', and 'b'" []).
Proof.
  intros Hstep Hcm Hq Hm Hx Hb. unfold explicit_method.
  assert (Hd : exists m, dict_get (METHODS euler_step rk4_step heun_step) method = Some m).
  { destruct Hm as [<- | [<- | [<- | []]]]; simpl; eauto. }
  destruct Hd as [m ->]. rewrite Hcm.
  cbn [item nth_error bind]. unfold set_column. rewrite Hb.
  cbn [bind zeros length repeat set_item].
  assert (Hs : shaped (length x_array) (S (S (length t)))
                 (initial :: repeat (np_zeros (length x_array)) (S (length t)))).
  { destruct (zeros_shaped (length x_array) (S (length t))) as [H1 H2].
    split; [simpl; f_equal; exact H1|].
    constructor; [eapply broadcast_to_length; eassumption | exact H2]. }
  assert (Hnx : (0 < length x_array)%nat) by (destruct x_array; [congruence | simpl; lia]).
  destruct (set_first_row_shaped _ _ _ (alpha bvp) Hs Hnx) as (u1 & Hu1 & Hs1).
  change (repeat (np_zeros (length x_array)) (S (length t)))
    with (np_zeros (length x_array) :: repeat (np_zeros (length x_array)) (length t))
    in Hu1.
  rewrite Hu1. cbn [bind].
  destruct (set_last_row_shaped _ _ _ (beta bvp) Hs1 Hnx) as (u2 & -> & Hs2). cbn [bind].
  destruct (shaped_column _ _ u2 0 Hs2) as (c & Hc & _); [lia|].
  rewrite (lines_loop_first_raises euler_step (PDE bvp A b) (length x_array)
             t_0 t_1 t u2 c
             (Exn TypeError
                "PDE() missing 3 required positional arguments: 'D', 'A', and 'b'" [])
             Hc).
  - reflexivity.
  - apply Hstep. unfold PDE. rewrite Hq. reflexivity.
Qed.

Lemma euler_step_calls_field : calls_field OdeSolvers.euler_step.
Proof. intros f t y h e H. unfold OdeSolvers.euler_step. rewrite H. reflexivity. Qed.

(** The three-point diffusion problem with the reaction term [q(x, t, u) = u]. *)
Lemma explicit_method_reaction_term_raises_witness :
  Inputs.explicit_method Inputs.reacting_heat [0; 1; 2] "RK4"
  = Raise (Exn TypeError
             "PDE() missing 3 required positional arguments: 'D', 'A', and 'b'" []).
Proof.
  apply (explicit_method_reaction_term_raises OdeSolvers.euler_step OdeSolvers.rk4_step
           OdeSolvers.heun_step Inputs.reacting_heat 0 1 [2] "RK4"
           [[-2; 1; 0]; [1; -2; 1]; [0; 1; -2]] [1; 0; 2] [0; 1 # 2; 1] [0; 1 # 2; 1]
           (fun _ _ u => u)).
  - exact euler_step_calls_field.
  - reflexivity.
  - reflexivity.
  - simpl. auto.
  - discriminate.
  - reflexivity.
Defined.

(** ** [crank_nicolson] *)

Section CrankNicolson.

Variables np_linalg_solve sp_linalg_spsolve : matrix -> vec -> result vec.
Variable bvp : BVP.
Variables lhs rhs : matrix.
Variables b x_array : vec.

(** The new column of [crank_nicolson]. *)
Let cn_step (ti : nat) (u_ti u_next : vec) : Prop :=
  exists Ru r solution,
    matvec rhs u_ti = Ok Ru
    /\ np_add Ru (vscale (C bvp) b) = Ok r
    /\ (if sparse bvp then sp_linalg_spsolve lhs r else np_linalg_solve lhs r) = Ok solution
    /\ broadcast_to (length x_array) solution = Ok u_next.

Let cn_body (ti : nat) (u : buffer) : result buffer :=
  u_ti <- item u ti ;;
  Ru <- matvec rhs u_ti ;;
  r <- np_add Ru (vscale (C bvp) b) ;;
  if sparse bvp then
    u_next <- sp_linalg_spsolve lhs r ;;
    set_column (length x_array) u (ti + 1) u_next
  else
    u_next <- np_linalg_solve lhs r ;;
    set_column (length x_array) u (ti + 1) u_next.

Lemma cn_body_spec (ti : nat) (u u1 : buffer) :
  cn_body ti u = Ok u1 ->
  length u1 = length u
  /\ (forall j, j <> (ti + 1)%nat -> nth_error u1 j = nth_error u j)
  /\ exists u_ti u_next,
       nth_error u ti = Some u_ti /\ cn_step ti u_ti u_next
       /\ nth_error u1 (ti + 1) = Some u_next.
Proof.
  unfold cn_body, cn_step. intro H.
  inv_bind H. rename a into u_ti. inv_bind H. rename a into Ru.
  inv_bind H. rename a into r. apply item_Ok in Ha.
  destruct (sparse bvp); inv_bind H; rename a into solution;
    destruct (set_column_Ok _ _ _ _ _ H) as (col & Hb & Hl & Hn & Ho);
    (split; [exact Hl|]); (split; [exact Ho|]);
    exists u_ti, col; (split; [exact Ha|]); (split; [|exact Hn]);
    exists Ru, r, solution; auto.
Qed.

End CrankNicolson.



(** ** Steady states of the implicit steppers *)

Lemma dot_nil_l (u : vec) : dot [] u = 0.
Proof. reflexivity. Qed.

Lemma dot_cons (x y : Q) (r u : vec) : dot (x :: r) (y :: u) = x * y + dot r u.
Proof. reflexivity. Qed.

Lemma dot_sub (r1 r2 u : vec) :
  length r1 = length u -> length r2 = length u ->
  dot (zip_with Qminus r1 r2) u == dot r1 u - dot r2 u.
Proof.
  revert r2 u. induction r1 as [|x r1 IH]; intros [|y r2] [|z u] H1 H2;
    simpl in H1, H2; try discriminate.
  - unfold dot. simpl. ring.
  - simpl zip_with. rewrite !dot_cons, IH by lia. ring.
Qed.

Lemma dot_add (r1 r2 u : vec) :
  length r1 = length u -> length r2 = length u ->
  dot (zip_with Qplus r1 r2) u == dot r1 u + dot r2 u.
Proof.
  revert r2 u. induction r1 as [|x r1 IH]; intros [|y r2] [|z u] H1 H2;
    simpl in H1, H2; try discriminate.
  - unfold dot. simpl. ring.
  - simpl zip_with. rewrite !dot_cons, IH by lia. ring.
Qed.

Lemma dot_scale (c : Q) (r u : vec) : dot (vscale c r) u == c * dot r u.
Proof.
  revert u. induction r as [|x r IH]; intros [|z u]; unfold vscale; simpl;
    try (unfold dot; simpl; ring).
  fold (vscale c r). rewrite !dot_cons, IH. ring.
Qed.

Lemma dot_div (c : Q) (r u : vec) :
  ~ c == 0 -> dot (map (fun x => x / c) r) u == dot r u / c.
Proof.
  intro Hc. revert u. induction r as [|x r IH]; intros [|z u]; simpl;
    try (unfold dot; simpl; field; exact Hc).
  rewrite !dot_cons, IH. field. exact Hc.
Qed.

(** Row [i] of the identity picks entry [i]. *)
Lemma dot_unit (i : nat) :
  forall (m s : nat) (u : vec),
    length u = m ->
    dot (map (fun j => if (i =? j)%nat then 1 else 0) (seq s m)) u
    == if ((s <=? i) && (i <? s + m))%nat then nth (i - s) u 0 else 0.
Proof.
  induction m as [|m IH]; intros s [|z u] Hu; simpl in Hu; try discriminate.
  - simpl. unfold dot. simpl.
    destruct ((s <=? i) && (i <? s + 0))%nat eqn:E; [|reflexivity].
    apply andb_true_iff in E. destruct E as [E1 E2].
    apply Nat.leb_le in E1. apply Nat.ltb_lt in E2. lia.
  - simpl seq. simpl map. rewrite dot_cons, (IH (S s) u) by lia.
    destruct (Nat.eq_dec i s) as [-> | Hne].
    + rewrite Nat.eqb_refl.
      replace ((S s <=? s) && (s <? S s + m))%nat with false
        by (symmetry; apply andb_false_iff; left; apply Nat.leb_gt; lia).
      replace ((s <=? s) && (s <? s + S m))%nat with true
        by (symmetry; apply andb_true_iff; split;
            [apply Nat.leb_le | apply Nat.ltb_lt]; lia).
      rewrite Nat.sub_diag. simpl. ring.
    + replace (i =? s)%nat with false by (symmetry; apply Nat.eqb_neq; exact Hne).
      destruct ((s <=? i) && (i <? s + S m))%nat eqn:E.
      * apply andb_true_iff in E. destruct E as [E1 E2].
        apply Nat.leb_le in E1. apply Nat.ltb_lt in E2.
        replace ((S s <=? i) && (i <? S s + m))%nat with true
          by (symmetry; apply andb_true_iff; split;
              [apply Nat.leb_le | apply Nat.ltb_lt]; lia).
        replace (i - s)%nat with (S (i - S s)) by lia. simpl. ring.
      * replace ((S s <=? i) && (i <? S s + m))%nat with false.
        -- ring.
        -- symmetry. apply andb_false_iff. apply andb_false_iff in E.
           destruct E as [E | E]; [left; apply Nat.leb_gt; apply Nat.leb_gt in E
                                  | right; apply Nat.ltb_ge; apply Nat.ltb_ge in E]; lia.
Qed.

Lemma np_sub_same_length (a b : vec) :
  length a = length b -> np_sub a b = Ok (zip_with Qminus a b).
Proof. intro H. unfold np_sub, np_binop. rewrite H, Nat.eqb_refl. reflexivity. Qed.

Lemma sequence_zip (g : vec -> vec -> vec) (h : vec -> vec -> result vec)
    (M1 M2 : matrix) (n : nat) :
  (forall r1 r2, length r1 = n -> length r2 = n -> h r1 r2 = Ok (g r1 r2)) ->
  Forall (fun r => length r = n) M1 -> Forall (fun r => length r = n) M2 ->
  sequence (zip_with h M1 M2) = Ok (zip_with g M1 M2).
Proof.
  intros Hh H1. revert M2. induction H1 as [|r1 M1 Hr1 HM1 IH]; intros M2 H2.
  - reflexivity.
  - destruct H2 as [|r2 M2 Hr2 HM2]; [reflexivity|].
    simpl. rewrite Hh by assumption. cbn [bind]. rewrite IH by assumption.
    reflexivity.
Qed.

(** Matrices of one shape are subtracted and added entry by entry. *)
Lemma mat_sub_square (M1 M2 : matrix) (n : nat) :
  length M1 = length M2 ->
  Forall (fun r => length r = n) M1 -> Forall (fun r => length r = n) M2 ->
  mat_sub M1 M2 = Ok (zip_with (zip_with Qminus) M1 M2).
Proof.
  intros Hl H1 H2. unfold mat_sub, np_binop. rewrite Hl, Nat.eqb_refl. cbn [bind].
  apply (sequence_zip (zip_with Qminus) np_sub M1 M2 n); auto.
  intros r1 r2 E1 E2. apply np_sub_same_length. congruence.
Qed.

Lemma mat_add_square (M1 M2 : matrix) (n : nat) :
  length M1 = length M2 ->
  Forall (fun r => length r = n) M1 -> Forall (fun r => length r = n) M2 ->
  mat_add M1 M2 = Ok (zip_with (zip_with Qplus) M1 M2).
Proof.
  intros Hl H1 H2. unfold mat_add, np_binop. rewrite Hl, Nat.eqb_refl. cbn [bind].
  apply (sequence_zip (zip_with Qplus) np_add M1 M2 n); auto.
  intros r1 r2 E1 E2. apply StepFacts.np_add_same_length. congruence.
Qed.

Lemma eye_rows (n : nat) : Forall (fun r => length r = n) (eye n).
Proof.
  unfold eye. apply Forall_forall. intros r Hr. apply in_map_iff in Hr.
  destruct Hr as (i & <- & _). rewrite length_map, length_seq. reflexivity.
Qed.

Lemma eye_length (n : nat) : length (eye n) = n.
Proof. unfold eye. rewrite length_map, length_seq. reflexivity. Qed.

Lemma skipn_nth (u : vec) (s : nat) :
  (s < length u)%nat -> skipn s u = nth s u 0 :: skipn (S s) u.
Proof.
  revert s. induction u as [|x u IH]; intros [|s] H; simpl in H; try lia.
  - reflexivity.
  - simpl. rewrite IH by lia. reflexivity.
Qed.

(** [(I - M) @ u = u - M @ u] and [(I + M) @ u = u + M @ u], row by row. *)
Lemma eye_op_rows (op : Q -> Q -> Q) (u : vec) (n : nat) :
  (forall r1 r2, length r1 = length u -> length r2 = length u ->
     dot (zip_with op r1 r2) u == op (dot r1 u) (dot r2 u)) ->
  (forall x x' y, x == x' -> op x y == op x' y) ->
  length u = n ->
  forall (m s : nat) (M : matrix),
    length M = m -> (s + m = n)%nat -> Forall (fun r => length r = n) M ->
    veq (map (fun r => dot r u)
           (zip_with (zip_with op)
              (map (fun i => map (fun j => if (i =? j)%nat then 1 else 0) (seq 0 n))
                 (seq s m)) M))
        (zip_with op (skipn s u) (map (fun r => dot r u) M)).
Proof.
  intros Hop Hcong Hu. induction m as [|m IH]; intros s [|r M] HM Hs HF; simpl in HM;
    try discriminate.
  - simpl. destruct (skipn s u); constructor.
  - inversion HF as [|? ? Hr HF']; subst.
    rewrite (skipn_nth u s) by lia. simpl. constructor.
    + rewrite Hop by (rewrite ?length_map, ?length_seq; congruence).
      apply Hcong.
      rewrite (dot_unit s (length u) 0 u eq_refl).
      replace ((0 <=? s) && (s <? 0 + length u))%nat with true
        by (symmetry; apply andb_true_iff; split;
            [apply Nat.leb_le | apply Nat.ltb_lt]; lia).
      rewrite Nat.sub_0_r. reflexivity.
    + apply IH; auto; lia.
Qed.

Lemma veq_zip (op : Q -> Q -> Q) (a a' b b' : vec) :
  (forall x x' y y', x == x' -> y == y' -> op x y == op x' y') ->
  veq a a' -> veq b b' -> veq (zip_with op a b) (zip_with op a' b').
Proof.
  intros Hop Ha. revert b b'. induction Ha as [|x x' a a' Hx Ha IH]; intros b b' Hb.
  - constructor.
  - destruct Hb as [|y y' b b' Hy Hb]; simpl; constructor; auto.
    apply IH, Hb.
Qed.

Lemma veq_dot_scale (c : Q) (M : matrix) (u : vec) :
  veq (map (fun r => dot r u) (mat_scale c M)) (vscale c (map (fun r => dot r u) M)).
Proof.
  induction M as [|r M IH]; simpl; constructor; [apply dot_scale | exact IH].
Qed.

Lemma veq_dot_div (c : Q) (M : matrix) (u : vec) :
  ~ c == 0 ->
  veq (map (fun r => dot r u) (mat_div M c)) (map (fun x => x / c) (map (fun r => dot r u) M)).
Proof.
  intro Hc. induction M as [|r M IH]; simpl; constructor; [apply dot_div, Hc | exact IH].
Qed.

Lemma matvec_rows (M : matrix) (u : vec) :
  Forall (fun r => length r = length u) M ->
  matvec M u = Ok (map (fun r => dot r u) M).
Proof.
  intro H. unfold matvec.
  replace (forallb (fun r => (length r =? length u)%nat) M) with true; [reflexivity|].
  symmetry. apply forallb_forall. rewrite Forall_forall in H.
  intros r Hr. apply Nat.eqb_eq, H, Hr.
Qed.

Lemma matvec_Ok (M : matrix) (u image : vec) :
  matvec M u = Ok image -> image = map (fun r => dot r u) M.
Proof.
  unfold matvec.
  destruct (forallb (fun r => (length r =? length u)%nat) M); [|discriminate].
  congruence.
Qed.

Lemma zip_rows_length (op : Q -> Q -> Q) (M1 M2 : matrix) (n : nat) :
  Forall (fun r => length r = n) M1 -> Forall (fun r => length r = n) M2 ->
  Forall (fun r => length r = n) (zip_with (zip_with op) M1 M2).
Proof.
  intro H1. revert M2. induction H1 as [|r1 M1 Hr1 HM1 IH]; intros M2 H2; simpl.
  - constructor.
  - destruct H2 as [|r2 M2 Hr2 HM2]; constructor; auto.
    rewrite StepFacts.zip_with_length. lia.
Qed.

Lemma mat_scale_rows (c : Q) (M : matrix) (n : nat) :
  Forall (fun r => length r = n) M -> Forall (fun r => length r = n) (mat_scale c M).
Proof.
  intro H. unfold mat_scale. apply Forall_forall. intros r Hr.
  apply in_map_iff in Hr. destruct Hr as (r0 & <- & Hr0).
  rewrite StepFacts.vscale_length. rewrite Forall_forall in H. auto.
Qed.

Lemma mat_div_rows (c : Q) (M : matrix) (n : nat) :
  Forall (fun r => length r = n) M -> Forall (fun r => length r = n) (mat_div M c).
Proof.
  intro H. unfold mat_div. apply Forall_forall. intros r Hr.
  apply in_map_iff in Hr. destruct Hr as (r0 & <- & Hr0).
  rewrite length_map. rewrite Forall_forall in H. auto.
Qed.

(** For a square [M] of the size of [u]: [(I - M) @ u = u - M @ u]. *)
Lemma eye_sub_matvec (M lhs : matrix) (u : vec) (n : nat) :
  length u = n -> length M = n -> Forall (fun r => length r = n) M ->
  mat_sub (eye n) M = Ok lhs ->
  exists image,
    matvec lhs u = Ok image
    /\ veq image (zip_with Qminus u (map (fun r => dot r u) M)).
Proof.
  intros Hu HM HF Hlhs.
  rewrite (mat_sub_square (eye n) M n) in Hlhs
    by (auto using eye_rows; rewrite eye_length; congruence).
  injection Hlhs as <-.
  exists (map (fun r => dot r u) (zip_with (zip_with Qminus) (eye n) M)). split.
  - apply matvec_rows. rewrite Hu. apply zip_rows_length; auto using eye_rows.
  - unfold eye.
    apply (eye_op_rows Qminus u n); auto.
    + intros r1 r2 H1 H2. apply dot_sub; assumption.
    + intros x x' y Hx. rewrite Hx. reflexivity.
Qed.

Lemma eye_add_matvec (M rhs : matrix) (u : vec) (n : nat) :
  length u = n -> length M = n -> Forall (fun r => length r = n) M ->
  mat_add (eye n) M = Ok rhs ->
  exists image,
    matvec rhs u = Ok image
    /\ veq image (zip_with Qplus u (map (fun r => dot r u) M)).
Proof.
  intros Hu HM HF Hrhs.
  rewrite (mat_add_square (eye n) M n) in Hrhs
    by (auto using eye_rows; rewrite eye_length; congruence).
  injection Hrhs as <-.
  exists (map (fun r => dot r u) (zip_with (zip_with Qplus) (eye n) M)). split.
  - apply matvec_rows. rewrite Hu. apply zip_rows_length; auto using eye_rows.
  - unfold eye.
    apply (eye_op_rows Qplus u n); auto.
    + intros r1 r2 H1 H2. apply dot_add; assumption.
    + intros x x' y Hx. rewrite Hx. reflexivity.
Qed.

(** Columns that are produced one from the other by a step that keeps what
    is close to [u_0] close to [u_0] are all close to [u_0]. *)
Lemma columns_all_close (step : nat -> vec -> vec -> Prop) (u : buffer) (u_0 : vec) :
  (forall col, nth_error u 0 = Some col -> veq col u_0) ->
  (forall ti, (ti + 1 < length u)%nat ->
     exists u_ti u_next,
       nth_error u ti = Some u_ti /\ step ti u_ti u_next
       /\ nth_error u (ti + 1) = Some u_next) ->
  (forall ti u_ti u_next, veq u_ti u_0 -> step ti u_ti u_next -> veq u_next u_0) ->
  Forall (fun col => veq col u_0) u.
Proof.
  intros H0 Hin Hstep.
  assert (Hall : forall j col, nth_error u j = Some col -> veq col u_0).
  { induction j as [|j IH]; intros col Hj; [apply H0, Hj|].
    assert (Hlt : (S j < length u)%nat)
      by (apply nth_error_Some; rewrite Hj; discriminate).
    destruct (Hin j) as (u_ti & u_next & E1 & E2 & E3); [lia|].
    replace (j + 1)%nat with (S j) in E3 by lia.
    assert (col = u_next) by congruence. subst col.
    eapply Hstep; [apply IH, E1 | exact E2]. }
  apply Forall_forall. intros col Hcol.
  destruct (In_nth_error _ _ Hcol) as (j & Hj). eapply Hall, Hj.
Qed.

Lemma steady_rhs (c : Q) (u b : vec) :
  veq (zip_with Qminus u (vscale c (map Qopp b))) (zip_with Qplus u (vscale c b)).
Proof.
  revert b. induction u as [|x u IH]; intros [|y b]; simpl; constructor.
  - ring.
  - apply IH.
Qed.

Lemma broadcast_to_same (n : nat) (v col : vec) :
  length v = n -> broadcast_to n v = Ok col -> col = v.
Proof.
  intros Hv H. unfold broadcast_to in H. rewrite Hv, Nat.eqb_refl in H. congruence.
Qed.

(** [implicit_euler] started at a steady state of the semi-discrete system,
    [A @ u_0 + b = 0], stays there: with exact solves and a nonsingular
    [I - C*A] every column of the returned buffer equals the initial
    condition entry by entry. *)
Theorem implicit_euler_keeps_steady_state
    (np_linalg_solve sp_linalg_spsolve : matrix -> vec -> result vec)
    (bvp : BVP) (t : vec) (A lhs : matrix) (b x_array Au : vec) (t_0 : Q) (u : buffer) :
  construct_matrix bvp = (A, b, x_array) ->
  length A = shape bvp -> Forall (fun r => length r = shape bvp) A ->
  length b = shape bvp -> length x_array = shape bvp ->
  item t 0 = Ok t_0 ->
  length (f_fun bvp x_array t_0) = shape bvp ->
  matvec A (f_fun bvp x_array t_0) = Ok Au -> veq Au (map Qopp b) ->
  exact_solve np_linalg_solve -> exact_solve sp_linalg_spsolve ->
  mat_sub (eye (shape bvp)) (mat_scale (C bvp) A) = Ok lhs -> nonsingular lhs ->
  implicit_euler np_linalg_solve sp_linalg_spsolve bvp t = Ok u ->
  length u = length t
  /\ Forall (fun col => veq col (f_fun bvp x_array t_0)) u.
Proof.
  intros Hcm HA HF Hb Hx Ht0 Hu0 HAu Hsteady Hnp Hsp Hlhs Hns H.
  set (u_0 := f_fun bvp x_array t_0) in *.
  destruct (eye_sub_matvec (mat_scale (C bvp) A) lhs u_0 (shape bvp))
    as (img & Himg & Hclose); auto.
  { unfold mat_scale. rewrite length_map. exact HA. }
  { apply mat_scale_rows, HF. }
  assert (Himg0 : veq img (zip_with Qplus u_0 (vscale (C bvp) b))).
  { eapply veq_trans; [exact Hclose|].
    eapply veq_trans; [|apply steady_rhs].
    apply veq_zip.
    - intros x x' y y' E E'. rewrite E, E'. reflexivity.
    - apply veq_refl.
    - eapply veq_trans; [apply veq_dot_scale|].
      apply matvec_Ok in HAu. subst Au. unfold vscale. apply veq_map; [|exact Hsteady].
      intros x x' E. rewrite E. reflexivity. }
  unfold implicit_euler in H. rewrite Hcm in H.
  fold u_0. rewrite Hlhs, Ht0 in H. cbn [bind] in H. fold u_0 in H.
  inv_bind H. rename a into u0.
  destruct (set_column_Ok _ _ _ _ _ Ha) as (col0 & Hbc & Hl0 & Hn0 & _).
  apply broadcast_to_same in Hbc; [|congruence]. subst col0.
  pose proof (column_loop buffer (fun u => u) _ _
                (implicit_body_spec np_linalg_solve sp_linalg_spsolve bvp lhs
                   (vscale (C bvp) b) x_array) _ _ _ _ H) as (Hl & Hlow & Hin).
  cbv beta in Hl, Hlow, Hin.
  assert (Hlen : length u = length t).
  { rewrite Hl, Hl0. unfold zeros. apply repeat_length. }
  split; [exact Hlen|].
  eapply columns_all_close.
  - intros col Hcol. rewrite Hlow in Hcol by lia.
    assert (col = u_0) by congruence. subst col. apply veq_refl.
  - intros ti Hti. apply Hin. lia.
  - cbv beta. intros ti u_ti u_next Hclose_ti (r & solution & R1 & R2 & R3).
    assert (Hsol : length solution = length r
                   /\ exists image, matvec lhs solution = Ok image /\ veq image r).
    { destruct (sparse bvp); [apply Hsp | apply Hnp]; exact R2. }
    destruct Hsol as (Hsl & image & Hi & Hir).
    assert (Hr0 : np_add u_0 (vscale (C bvp) b) = Ok (zip_with Qplus u_0 (vscale (C bvp) b))).
    { apply StepFacts.np_add_same_length. rewrite StepFacts.vscale_length. congruence. }
    assert (Hr : veq r (zip_with Qplus u_0 (vscale (C bvp) b)))
      by exact (np_add_veq _ _ _ _ _ Hclose_ti R1 Hr0).
    assert (Hs : veq solution u_0).
    { eapply Hns; [exact Hi | exact Himg |].
      eapply veq_trans; [exact Hir|]. eapply veq_trans; [exact Hr|].
      apply veq_sym, Himg0. }
    apply broadcast_to_same in R3; [subst u_next; exact Hs|].
    rewrite (veq_length _ _ Hs). congruence.
Qed.

(** The problem on one grid point started at [u = 3/2], where
    [A @ u + b = -2 * 3/2 + 3 = 0], over the grid [[0; 1; 2]]. *)
Lemma implicit_euler_keeps_steady_state_witness :
  exists u,
    implicit_euler Inputs.solve_1x1 Inputs.solve_1x1 Inputs.steady_point [0; 1; 2] = Ok u
    /\ length u = 3%nat
    /\ Forall (fun col => veq col [3 # 2]) u.
Proof.
  eexists. split; [vm_compute; reflexivity|].
  apply (implicit_euler_keeps_steady_state Inputs.solve_1x1 Inputs.solve_1x1
           Inputs.steady_point [0; 1; 2] [[-2]] [[1 - (1 # 2) * -2]] [3] [1 # 2]
           [-2 * (3 # 2) + 0] 0).
  - reflexivity.
  - reflexivity.
  - repeat constructor.
  - reflexivity.
  - reflexivity.
  - reflexivity.
  - reflexivity.
  - reflexivity.
  - constructor; [vm_compute; reflexivity | constructor].
  - exact solve_1x1_exact.
  - exact solve_1x1_exact.
  - reflexivity.
  - apply nonsingular_1x1. vm_compute. discriminate.
  - vm_compute. reflexivity.
Defined.

Lemma dot_veq (r u u' : vec) : veq u u' -> dot r u == dot r u'.
Proof.
  intro H. revert r. induction H as [|x x' u u' Hx Hu IH]; intros [|z r];
    try reflexivity.
  rewrite !dot_cons, Hx, IH. reflexivity.
Qed.

Lemma matvec_veq (M : matrix) (u u' image image' : vec) :
  veq u u' -> matvec M u = Ok image -> matvec M u' = Ok image' -> veq image image'.
Proof.
  intros H Hi Hi'. apply matvec_Ok in Hi, Hi'. subst.
  induction M as [|r M IH]; simpl; constructor; [apply dot_veq, H | exact IH].
Qed.

Lemma steady_rhs_half (c : Q) (u b : vec) :
  veq (zip_with Qplus
         (zip_with Qplus u (map (fun x => x / 2) (vscale c (map Qopp b))))
         (vscale c b))
      (zip_with Qminus u (map (fun x => x / 2) (vscale c (map Qopp b)))).
Proof.
  revert b. induction u as [|x u IH]; intros [|y b]; simpl; constructor.
  - field.
  - apply IH.
Qed.

(** [crank_nicolson] started at a steady state, [A @ u_0 + b = 0], stays
    there as well: with exact solves and a nonsingular [I - C*A/2] every
    column of the returned buffer equals the initial condition entry by
    entry. *)
Theorem crank_nicolson_keeps_steady_state
    (np_linalg_solve sp_linalg_spsolve : matrix -> vec -> result vec)
    (bvp : BVP) (t : vec) (A lhs : matrix) (b x_array Au : vec) (t_0 : Q) (u : buffer) :
  construct_matrix bvp = (A, b, x_array) ->
  length A = shape bvp -> Forall (fun r => length r = shape bvp) A ->
  length b = shape bvp -> length x_array = shape bvp ->
  item t 0 = Ok t_0 ->
  length (f_fun bvp x_array t_0) = shape bvp ->
  matvec A (f_fun bvp x_array t_0) = Ok Au -> veq Au (map Qopp b) ->
  exact_solve np_linalg_solve -> exact_solve sp_linalg_spsolve ->
  mat_sub (eye (shape bvp)) (mat_div (mat_scale (C bvp) A) 2) = Ok lhs ->
  nonsingular lhs ->
  crank_nicolson np_linalg_solve sp_linalg_spsolve bvp t = Ok u ->
  length u = length t
  /\ Forall (fun col => veq col (f_fun bvp x_array t_0)) u.
Proof.
  intros Hcm HA HF Hb Hx Ht0 Hu0 HAu Hsteady Hnp Hsp Hlhs Hns H.
  set (u_0 := f_fun bvp x_array t_0) in *.
  set (M := mat_div (mat_scale (C bvp) A) 2) in *.
  set (half := map (fun x => x / 2) (vscale (C bvp) (map Qopp b))).
  assert (HM : length M = shape bvp)
    by (unfold M, mat_div, mat_scale; rewrite !length_map; exact HA).
  assert (HMF : Forall (fun r => length r = shape bvp) M)
    by (apply mat_div_rows, mat_scale_rows, HF).
  assert (HMu : veq (map (fun r => dot r u_0) M) half).
  { unfold M, half. eapply veq_trans; [apply veq_dot_div; discriminate|].
    apply veq_map; [intros x x' E; rewrite E; reflexivity|].
    eapply veq_trans; [apply veq_dot_scale|].
    apply matvec_Ok in HAu. subst Au. unfold vscale. apply veq_map; [|exact Hsteady].
    intros x x' E. rewrite E. reflexivity. }
  assert (Hhalf : length half = shape bvp)
    by (unfold half, vscale; rewrite !length_map; exact Hb).
  destruct (eye_sub_matvec M lhs u_0 (shape bvp)) as (img & Himg & Hclose); auto.
  assert (Himg0 : veq img (zip_with Qminus u_0 half)).
  { eapply veq_trans; [exact Hclose|]. apply veq_zip; [|apply veq_refl|exact HMu].
    intros x x' y y' E E'. rewrite E, E'. reflexivity. }
  unfold crank_nicolson in H. rewrite Hcm in H.
  fold u_0 M in H. rewrite Hlhs in H. cbn [bind] in H.
  inv_bind H. rename a into rhs.
  destruct (eye_add_matvec M rhs u_0 (shape bvp)) as (Ru0 & HRu0 & Hclose'); auto.
  assert (HRu0' : veq Ru0 (zip_with Qplus u_0 half)).
  { eapply veq_trans; [exact Hclose'|]. apply veq_zip; [|apply veq_refl|exact HMu].
    intros x x' y y' E E'. rewrite E, E'. reflexivity. }
  rewrite Ht0 in H. cbn [bind] in H. fold u_0 in H.
  inv_bind H. rename a into u0.
  match goal with
  | Hset : set_column _ _ 0 u_0 = Ok u0 |- _ =>
      destruct (set_column_Ok _ _ _ _ _ Hset) as (col0 & Hbc & Hl0 & Hn0 & _)
  end.
  apply broadcast_to_same in Hbc; [|congruence]. subst col0.
  pose proof (column_loop buffer (fun u => u) _ _
                (cn_body_spec np_linalg_solve sp_linalg_spsolve bvp lhs rhs b x_array)
                _ _ _ _ H) as (Hl & Hlow & Hin).
  cbv beta in Hl, Hlow, Hin.
  assert (Hlen : length u = length t).
  { rewrite Hl, Hl0. unfold zeros. apply repeat_length. }
  split; [exact Hlen|].
  eapply columns_all_close.
  - intros col Hcol. rewrite Hlow in Hcol by lia.
    assert (col = u_0) by congruence. subst col. apply veq_refl.
  - intros ti Hti. apply Hin. lia.
  - cbv beta. intros ti u_ti u_next Hclose_ti (Ru & r & solution & R1 & R2 & R3 & R4).
    assert (Hsol : length solution = length r
                   /\ exists image, matvec lhs solution = Ok image /\ veq image r).
    { destruct (sparse bvp); [apply Hsp | apply Hnp]; exact R3. }
    destruct Hsol as (Hsl & image & Hi & Hir).
    assert (HRu : veq Ru Ru0) by exact (matvec_veq _ _ _ _ _ Hclose_ti R1 HRu0).
    assert (Hr0 : np_add Ru0 (vscale (C bvp) b)
                  = Ok (zip_with Qplus Ru0 (vscale (C bvp) b))).
    { apply StepFacts.np_add_same_length.
      rewrite StepFacts.vscale_length, (veq_length _ _ HRu0'),
        StepFacts.zip_with_length. lia. }
    assert (Hr : veq r (zip_with Qminus u_0 half)).
    { eapply veq_trans; [exact (np_add_veq _ _ _ _ _ HRu R2 Hr0)|].
      eapply veq_trans; [apply veq_zip_plus, HRu0'|].
      apply steady_rhs_half. }
    assert (Hs : veq solution u_0).
    { eapply Hns; [exact Hi | exact Himg |].
      eapply veq_trans; [exact Hir|]. eapply veq_trans; [exact Hr|].
      apply veq_sym, Himg0. }
    apply broadcast_to_same in R4; [subst u_next; exact Hs|].
    rewrite (veq_length _ _ Hs). congruence.
Qed.

(** The same steady problem on one grid point, over the grid [[0; 1; 2]]. *)
Lemma crank_nicolson_keeps_steady_state_witness :
  exists u,
    crank_nicolson Inputs.solve_1x1 Inputs.solve_1x1 Inputs.steady_point [0; 1; 2] = Ok u
    /\ length u = 3%nat
    /\ Forall (fun col => veq col [3 # 2]) u.
Proof.
  eexists. split; [vm_compute; reflexivity|].
  apply (crank_nicolson_keeps_steady_state Inputs.solve_1x1 Inputs.solve_1x1
           Inputs.steady_point [0; 1; 2] [[-2]] [[1 - (1 # 2) * -2 / 2]] [3] [1 # 2]
           [-2 * (3 # 2) + 0] 0).
  - reflexivity.
  - reflexivity.
  - repeat constructor.
  - reflexivity.
  - reflexivity.
  - reflexivity.
  - reflexivity.
  - reflexivity.
  - constructor; [vm_compute; reflexivity | constructor].
  - exact solve_1x1_exact.
  - exact solve_1x1_exact.
  - reflexivity.
  - apply nonsingular_1x1. vm_compute. discriminate.
  - vm_compute. reflexivity.
Defined.

(** ** The order of the tests of [solve_ode] *)

Lemma dict_get_METHODS_known (euler_step rk4_step heun_step : step_function)
    (method : string) :
  In method ["Euler"; "RK4"; "Heun"]%string ->
  exists name step,
    dict_get (IVP.METHODS euler_step rk4_step heun_step) method
    = Some (PyFunction name step).
Proof.
  intros [<- | [<- | [<- | []]]]; eexists; eexists; reflexivity.
Qed.

Lemma dict_get_METHODS_unknown (euler_step rk4_step heun_step : step_function)
    (method : string) :
  ~ In method ["Euler"; "RK4"; "Heun"]%string ->
  dict_get (IVP.METHODS euler_step rk4_step heun_step) method = None.
Proof.
  intro H. destruct (dict_get _ method) as [m|] eqn:E; [|reflexivity].
  exfalso. apply H. eapply dict_get_METHODS_names, E.
Qed.

(** What [solve_ode] raises, in the order of its tests, each without a
    warning and before any step is taken: a right-hand side that raises at
    [(t0, y0)] is reported as the error on the form of the function, whatever
    it raised and whatever the other arguments are; then a result of another
    shape than [y0]; then a method name outside the three; then the absence
    of both bounds; then [tf <= t0]; then [n_max <= 0]; and only then
    [deltat_max <= 0]. *)
Theorem solve_ode_rejects
    (euler_step rk4_step heun_step : step_function) (fuel : nat)
    (fun_ : ode_function) (t0 : Q) (y0 : vec) (tf : option Q) (n_max : option Z)
    (method : string) (deltat_max : Q) (args : option (list Q)) :
  let call := solve_ode euler_step rk4_step heun_step fuel fun_ t0 y0 tf n_max
                method deltat_max args in
  (forall e, bind_args fun_ args t0 y0 = Raise e ->
     call = (Raise (Exn FunctionError "ODE function must be of the form f(t, y)." []), []))
  /\
  (forall array, bind_args fun_ args t0 y0 = Ok array ->
     (length array <> length y0 ->
      call = (Raise (Exn FunctionError
                "ODE function must return a numpy array of the same shape as y0. y0.shape: {}. f(t0, y0).shape: {}"
                [FNum (inject_Z (Z.of_nat (length y0)));
                 FNum (inject_Z (Z.of_nat (length array)))]), []))
     /\
     (length array = length y0 ->
        (~ In method ["Euler"; "RK4"; "Heun"]%string ->
         call = (Raise (Exn ValueError "Invalid method: {}. Method must be one of {}."
                          [FStr method; FStr "Euler"; FStr "RK4"; FStr "Heun"]), []))
        /\
        (In method ["Euler"; "RK4"; "Heun"]%string ->
           (tf = None -> n_max = None ->
            call = (Raise (Exn ValueError "Either tf or n_max must be given." []), []))
           /\
           (forall tf', tf = Some tf' -> tf' <= t0 ->
              call = (Raise (Exn ValueError "tf must be greater than t0." []), []))
           /\
           (match tf with Some tf' => t0 < tf' | None => True end ->
              (forall n, n_max = Some n -> (n <= 0)%Z ->
                 call = (Raise (Exn ValueError "n_max must be greater than 0." []), []))
              /\
              ((tf <> None \/ n_max <> None) ->
               match n_max with Some n => (0 < n)%Z | None => True end ->
               deltat_max <= 0 ->
               call = (Raise (Exn ValueError "deltat_max must be greater than 0." []), [])))))).
Proof.
  intro call. subst call. unfold solve_ode. split.
  - intros e He. rewrite He. reflexivity.
  - intros array Harr. rewrite Harr. cbn [try_except wlift wbind]. split.
    + intro Hlen. apply Nat.eqb_neq in Hlen. rewrite Nat.eqb_sym, Hlen. reflexivity.
    + intro Hlen. rewrite Hlen, Nat.eqb_refl. cbn [negb]. split.
      * intro Hm. rewrite (dict_get_METHODS_unknown _ _ _ _ Hm). reflexivity.
      * intro Hm.
        destruct (dict_get_METHODS_known euler_step rk4_step heun_step _ Hm)
          as (name & step & ->).
        split; [|split; [|intro Htf; split]].
        -- intros -> ->. reflexivity.
        -- intros tf' -> Hle.
           destruct n_max; unfold check_tf; apply Qleb_true in Hle; rewrite Hle;
             reflexivity.
        -- intros n -> Hn.
           rewrite (check_tf_passes _ _ _ _ _ Htf).
           replace (match tf with Some _ => false | None => false end) with false
             by (destruct tf; reflexivity).
           cbn [wbind]. apply Z.leb_le in Hn. rewrite Hn. reflexivity.
        -- intros Hbound Hn Hd.
           replace (match tf with
                    | Some _ => false
                    | None => match n_max with Some _ => false | None => true end
                    end) with false
             by (destruct tf, n_max; try reflexivity; destruct Hbound; congruence).
           rewrite (check_tf_passes _ _ _ _ _ Htf). cbn [wbind].
           replace (match n_max with Some n => (n <=? 0)%Z | None => false end) with false
             by (destruct n_max; [symmetry; apply Z.leb_gt, Hn | reflexivity]).
           apply Qleb_true in Hd. rewrite Hd. reflexivity.
Qed.

(** One call for each test, for [f(t, y) = -y] unless said otherwise: a
    right-hand side that reads [y[1]] of a state of one entry, one that
    returns an entry too many, the method ['Midpoint'], no bound, [tf = t0],
    [n_max = 0] and [deltat_max = 0]. *)
Lemma solve_ode_rejects_witness :
  Inputs.solve_ode 5 Inputs.second_entry 0 [1] None None "Midpoint" 0 None
  = (Raise (Exn FunctionError "ODE function must be of the form f(t, y)." []), [])
  /\ Inputs.solve_ode 5 Inputs.longer 0 [1] None None "Midpoint" 0 None
     = (Raise (Exn FunctionError
                 "ODE function must return a numpy array of the same shape as y0. y0.shape: {}. f(t0, y0).shape: {}"
                 [FNum (inject_Z (Z.of_nat 1)); FNum (inject_Z (Z.of_nat 2))]), [])
  /\ Inputs.solve_ode 5 Inputs.decay 0 [1] None None "Midpoint" 0 None
     = (Raise (Exn ValueError "Invalid method: {}. Method must be one of {}."
                 [FStr "Midpoint"; FStr "Euler"; FStr "RK4"; FStr "Heun"]), [])
  /\ Inputs.solve_ode 5 Inputs.decay 0 [1] None None "Heun" 0 None
     = (Raise (Exn ValueError "Either tf or n_max must be given." []), [])
  /\ Inputs.solve_ode 5 Inputs.decay 0 [1] (Some 0) (Some 0%Z) "Heun" 0 None
     = (Raise (Exn ValueError "tf must be greater than t0." []), [])
  /\ Inputs.solve_ode 5 Inputs.decay 0 [1] (Some 1) (Some 0%Z) "Heun" 0 None
     = (Raise (Exn ValueError "n_max must be greater than 0." []), [])
  /\ Inputs.solve_ode 5 Inputs.decay 0 [1] (Some 1) (Some 3%Z) "Heun" 0 None
     = (Raise (Exn ValueError "deltat_max must be greater than 0." []), []).
Proof.
  pose (rejects := solve_ode_rejects OdeSolvers.euler_step OdeSolvers.rk4_step
                     OdeSolvers.heun_step 5).
  assert (Hknown : In "Heun"%string ["Euler"; "RK4"; "Heun"]%string)
    by (simpl; auto).
  assert (Hunknown : ~ In "Midpoint"%string ["Euler"; "RK4"; "Heun"]%string)
    by (simpl; intros [H | [H | [H | []]]]; discriminate H).
  split; [|split; [|split; [|split; [|split; [|split]]]]].
  - eapply (proj1 (rejects Inputs.second_entry 0 [1] None None "Midpoint"%string 0 None)).
    reflexivity.
  - apply (proj1 (proj2 (rejects Inputs.longer 0 [1] None None "Midpoint"%string 0 None)
                    [0; 1] eq_refl)).
    discriminate.
  - apply (proj1 (proj2 (proj2 (rejects Inputs.decay 0 [1] None None "Midpoint"%string 0 None)
                           [-1] eq_refl) eq_refl)).
    exact Hunknown.
  - apply (proj2 (proj2 (proj2 (rejects Inputs.decay 0 [1] None None "Heun"%string 0 None)
                           [-1] eq_refl) eq_refl) Hknown); reflexivity.
  - apply (proj1 (proj2 (proj2 (proj2 (proj2
             (rejects Inputs.decay 0 [1] (Some 0) (Some 0%Z) "Heun"%string 0 None)
             [-1] eq_refl) eq_refl) Hknown)) 0 eq_refl).
    apply Qle_refl.
  - apply (proj1 (proj2 (proj2 (proj2 (proj2 (proj2
             (rejects Inputs.decay 0 [1] (Some 1) (Some 0%Z) "Heun"%string 0 None)
             [-1] eq_refl) eq_refl) Hknown)) ltac:(reflexivity)) 0%Z eq_refl).
    lia.
  - apply (proj2 (proj2 (proj2 (proj2 (proj2 (proj2
             (rejects Inputs.decay 0 [1] (Some 1) (Some 3%Z) "Heun"%string 0 None)
             [-1] eq_refl) eq_refl) Hknown)) ltac:(reflexivity))).
    + left. discriminate.
    + reflexivity.
    + apply Qle_refl.
Defined.
